(** * TIN geometry: scaling, extraction and area-weighted centroid

    Shallow embedding of [src/func.py] (the Geometry Extractor and the
    Area & Centroid Calculator) and of [src/XML_scale.py] (the Scaler).

    Numbers are IEEE 754 binary64 values, as Python floats and NumPy
    [float64] are: Rocq's primitive floats, with the specification
    axioms of the kernel's float operations.  Python dictionaries are
    finite maps ([gmap]), exceptions are values of an error type threaded
    through a small result monad.  The file system and the XML parser are
    a function from file names to trees. *)

From Stdlib Require Import ZArith QArith Qabs Qpower List String Ascii Floats Lia Bool
  Permutation.
From stdpp Require Import base option gmap list.
Import ListNotations.

Local Open Scope Z_scope.
Local Open Scope list_scope.

(* Decimal literals of doubles stand for the nearest double. *)
Set Warnings "-inexact-float".

(** ** Documents

    What the programs see of a parsed XML tree: its elements in document
    order, each with its tag name, its attributes and its text children
    (the strings it directly holds).  [F] and [P] elements hold character
    data only, as in the TIN dialect. *)

Record element : Type := Element {
  name : string;
  attrs : list (string * string);
  contents : list string
}.

Definition document : Type := list element.

(** [soup.find_all(tag)]: the elements of that name, in document order. *)
Definition find_all (tag : string) (doc : document) : list element :=
  List.filter (fun e => String.eqb (name e) tag) doc.

(** [tag.text]: the concatenation of the strings below the element. *)
Definition text (e : element) : string := String.concat EmptyString (contents e).

(** [tag[key]]: the attribute's value, [None] standing for [KeyError]. *)
Fixpoint get_attr (key : string) (l : list (string * string)) : option string :=
  match l with
  | [] => None
  | (k, v) :: l' => if String.eqb k key then Some v else get_attr key l'
  end.

(** ** Exceptions

    The exceptions that leave the functions modelled here.  The three
    [ValueError]s the Extractor and the Calculator raise themselves are
    named after the taxonomy of the specification; the others are the
    built-in exceptions that escape uncaught. *)

Inductive error : Type :=
| ParseError (message : string)
    (* ValueError("Error reading XML file: {e}") *)
| InvalidPoint (point_tag : element)
    (* ValueError("Invalid point entry: {point_tag}. Error: {e}") *)
| DanglingReference (face : list Z)
    (* ValueError("Face references non-existent point IDs: {face}") *)
| LiteralError (token : string)
    (* the ValueError of int(token) or float(token), uncaught *)
| KeyError (key : string)
    (* a missing attribute, caught inside parse_tin_geometry *)
| IndexError.
    (* list index out of range, uncaught *)

Inductive result (A : Type) : Type :=
| Ok (a : A)
| Raise (e : error).

Arguments Ok {A} a.
Arguments Raise {A} e.

Definition bind {A B : Type} (r : result A) (k : A -> result B) : result B :=
  match r with
  | Ok a => k a
  | Raise e => Raise e
  end.

Notation "x <- r ;; k" := (bind r (fun x => k))
  (at level 100, r at next level, right associativity).

(** ** Vectors of three doubles *)

Record vec3 : Type := Vec3 { vx : float; vy : float; vz : float }.

Definition vadd (a b : vec3) : vec3 :=
  Vec3 (vx a + vx b)%float (vy a + vy b)%float (vz a + vz b)%float.

Definition vsub (a b : vec3) : vec3 :=
  Vec3 (vx a - vx b)%float (vy a - vy b)%float (vz a - vz b)%float.

(** [k * v] and [v / k] with a scalar [k], element by element. *)
Definition vscale (k : float) (a : vec3) : vec3 :=
  Vec3 (k * vx a)%float (k * vy a)%float (k * vz a)%float.

Definition vdiv (a : vec3) (k : float) : vec3 :=
  Vec3 (vx a / k)%float (vy a / k)%float (vz a / k)%float.

(** [np.zeros(3)] *)
Definition zeros3 : vec3 := Vec3 0%float 0%float 0%float.

(** [np.cross(a, b)] on vectors of dimension three: each component is the
    difference of two rounded products. *)
Definition cross (a b : vec3) : vec3 :=
  Vec3 (vy a * vz b - vz a * vy b)%float
       (vz a * vx b - vx a * vz b)%float
       (vx a * vy b - vy a * vx b)%float.

(** The fused multiply-add [x * y + z]: the exact product and the exact
    sum, rounded once (to nearest, ties to even).  The kernel's floats
    have no such operation; it is defined on their specification, next to
    [SFmul] and [SFadd] of the Standard Library.  A product that is an
    infinity or a zero is added as [SFadd] adds it; otherwise the product
    of the mantissas is aligned with [z] and the sum is normalised. *)
Definition SFfma (x y z : spec_float) : spec_float :=
  match x, y with
  | S754_nan, _ | _, S754_nan => S754_nan
  | S754_infinity _, S754_zero _ | S754_zero _, S754_infinity _ => S754_nan
  | S754_infinity sx, S754_infinity sy
  | S754_infinity sx, S754_finite sy _ _
  | S754_finite sx _ _, S754_infinity sy =>
      match z with
      | S754_nan => S754_nan
      | S754_infinity sz => if Bool.eqb (xorb sx sy) sz then z else S754_nan
      | _ => S754_infinity (xorb sx sy)
      end
  | S754_zero sx, S754_zero sy
  | S754_zero sx, S754_finite sy _ _
  | S754_finite sx _ _, S754_zero sy =>
      match z with
      | S754_zero sz => S754_zero (xorb sx sy && sz)
      | _ => z
      end
  | S754_finite sx mx ex, S754_finite sy my ey =>
      match z with
      | S754_nan | S754_infinity _ => z
      | S754_zero _ => binary_round prec emax (xorb sx sy) (mx * my) (ex + ey)
      | S754_finite sz mz ez =>
          let e := Z.min (ex + ey) ez in
          binary_normalize prec emax
            (cond_Zopp (xorb sx sy) (Z.pos (fst (shl_align (mx * my) (ex + ey) e)))
             + cond_Zopp sz (Z.pos (fst (shl_align mz ez e))))
            e false
      end
  end.

Definition fma (x y z : float) : float :=
  SF2Prim (SFfma (Prim2SF x) (Prim2SF y) (Prim2SF z)).

(** [a.dot(b)] on vectors of dimension three.  NumPy hands the dot product
    of two vectors of doubles to the BLAS routine [ddot], whose loop
    [dot += y[i] * x[i]] over the elements in order, started at [0.0], runs
    as fused multiply-adds: each product enters the running sum unrounded,
    and the sum is rounded once per element.  The result can differ in the
    last place from the sum of three rounded products. *)
Definition dot (a b : vec3) : float :=
  fma (vz a) (vz b) (fma (vy a) (vy b) (fma (vx a) (vx b) 0)).

(** [np.linalg.norm(x)] of a real vector: [sqrt(x.dot(x))]. *)
Definition norm (a : vec3) : float := PrimFloat.sqrt (dot a a).

(** ** Area & Centroid Calculator ([src/func.py]) *)

Definition compute_triangle_area (v1 v2 v3 : vec3) : float :=
  (0.5 * norm (cross (vsub v2 v1) (vsub v3 v1)))%float.

(** [face[i]], raising [IndexError] past the end. *)
Definition index (face : list Z) (i : nat) : result Z :=
  match face !! i with
  | Some k => Ok k
  | None => Raise IndexError
  end.

(** [points[k]] inside the [try]: the [KeyError] is turned into the
    [ValueError] that names the face. *)
Definition point_of (points : gmap Z vec3) (face : list Z) (k : Z) : result vec3 :=
  match points !! k with
  | Some v => Ok v
  | None => Raise (DanglingReference face)
  end.

(** The tuple [points[face[0]], points[face[1]], points[face[2]]],
    evaluated from left to right. *)
Definition resolve (points : gmap Z vec3) (face : list Z) : result (vec3 * vec3 * vec3) :=
  i0 <- index face 0 ;; v1 <- point_of points face i0 ;;
  i1 <- index face 1 ;; v2 <- point_of points face i1 ;;
  i2 <- index face 2 ;; v3 <- point_of points face i2 ;;
  Ok (v1, v2, v3).

(** [(v1 + v2 + v3) / 3.0] *)
Definition face_centroid (v1 v2 v3 : vec3) : vec3 :=
  vdiv (vadd (vadd v1 v2) v3) 3%float.

(** The loop of [compute_weighted_centroid], on the pair
    [(total_weighted_centroid, total_area)]. *)
Fixpoint centroid_loop (points : gmap Z vec3) (faces : list (list Z))
    (acc : vec3 * float) : result (vec3 * float) :=
  match faces with
  | [] => Ok acc
  | face :: rest =>
      vs <- resolve points face ;;
      let '(v1, v2, v3) := vs in
      let area := compute_triangle_area v1 v2 v3 in
      let centroid := face_centroid v1 v2 v3 in
      centroid_loop points rest
        (vadd (fst acc) (vscale area centroid), (snd acc + area)%float)
  end.

(** [None] is Python's [None]; [total_area] starts as the integer [0],
    which compares and adds as the double [0.0]. *)
Definition compute_weighted_centroid (points : gmap Z vec3) (faces : list (list Z))
    : result (option vec3) :=
  totals <- centroid_loop points faces (zeros3, 0%float) ;;
  let '(total_weighted_centroid, total_area) := totals in
  Ok (if (0 <? total_area)%float
      then Some (vdiv total_weighted_centroid total_area)
      else None).

(** ** Strings

    Characters are ASCII.  [str.split()] cuts at runs of white space and
    yields no empty piece; [str.split(" ")] cuts at every single space and
    yields the (possibly empty) pieces between them. *)

(** White space of [str.split()] and of the stripping done by [int] and
    [float]: tab, line feed, vertical tab, form feed, carriage return,
    the four separators 28..31 and the space. *)
Definition is_space (c : ascii) : bool :=
  let n := nat_of_ascii c in
  ((9 <=? n)%nat && (n <=? 13)%nat) || ((28 <=? n)%nat && (n <=? 32)%nat).

Definition is_empty (s : string) : bool :=
  match s with EmptyString => true | _ => false end.

Fixpoint split_ws_from (s cur : string) : list string :=
  match s with
  | EmptyString => if is_empty cur then [] else [cur]
  | String c s' =>
      if is_space c
      then (if is_empty cur then split_ws_from s' EmptyString
            else cur :: split_ws_from s' EmptyString)
      else split_ws_from s' (cur ++ String c EmptyString)
  end.

(** [s.split()] *)
Definition split_ws (s : string) : list string := split_ws_from s EmptyString.

Fixpoint split_on_from (sep : ascii) (s cur : string) : list string :=
  match s with
  | EmptyString => [cur]
  | String c s' =>
      if Ascii.eqb c sep then cur :: split_on_from sep s' EmptyString
      else split_on_from sep s' (cur ++ String c EmptyString)
  end.

(** [s.split(" ")] *)
Definition split_space (s : string) : list string :=
  split_on_from " "%char s EmptyString.

(** [' '.join(l)] *)
Definition join_space (l : list string) : string := String.concat " " l.

(** ** Rendering numbers *)

Definition digit_char (d : Z) : ascii := ascii_of_nat (48 + Z.to_nat d).

(** The last [n] decimal digits of [z], most significant first, in front
    of [acc]. *)
Fixpoint fixed_digits (n : nat) (z : Z) (acc : string) : string :=
  match n with
  | O => acc
  | S n' => fixed_digits n' (z / 10) (String (digit_char (z mod 10)) acc)
  end.

(** The decimal digits of a natural number, without leading zeros ("0" for
    zero).  [fuel] bounds the number of digits. *)
Fixpoint nat_digits (fuel : nat) (z : Z) (acc : string) : string :=
  match fuel with
  | O => acc
  | S fuel' =>
      let acc' := String (digit_char (z mod 10)) acc in
      if z / 10 =? 0 then acc' else nat_digits fuel' (z / 10) acc'
  end.

Definition str_nat (z : Z) : string :=
  nat_digits (S (Z.to_nat (Z.log2 z))) z EmptyString.

(** [str(n)] of an integer. *)
Definition str_int (z : Z) : string :=
  if z <? 0 then String "-" (str_nat (- z)) else str_nat z.

(** The integer nearest to [n / d] (for [d > 0]), ties to the even one. *)
Definition round_half_even (n d : Z) : Z :=
  let q := n / d in
  let r := n mod d in
  match 2 * r ?= d with
  | Lt => q
  | Gt => q + 1
  | Eq => if Z.even q then q else q + 1
  end.

(** The magnitude [m * 2^e] times [10^digits], rounded to an integer. *)
Definition scaled_magnitude (digits : nat) (m : positive) (e : Z) : Z :=
  let p := 10 ^ Z.of_nat digits in
  if 0 <=? e then Z.pos m * 2 ^ e * p
  else round_half_even (Z.pos m * p) (2 ^ (- e)).

Definition sign_prefix (s : bool) (rest : string) : string :=
  if s then String "-" rest else rest.

(** ["{:.<digits>f}".format(x)] for [digits > 0]: the exact value of the
    double rounded half-even to that many decimals; a sign for negative
    values, negative zero included; ["nan"], ["inf"] and ["-inf"]
    otherwise. *)
Definition format_f (digits : nat) (x : float) : string :=
  match Prim2SF x with
  | S754_nan => "nan"
  | S754_infinity s => sign_prefix s "inf"
  | S754_zero s =>
      sign_prefix s (String "0" (String "." (fixed_digits digits 0 EmptyString)))
  | S754_finite s m e =>
      let n := scaled_magnitude digits m e in
      let p := 10 ^ Z.of_nat digits in
      sign_prefix s
        (str_nat (n / p) ++ String "." (fixed_digits digits (n mod p) EmptyString))
  end.

(** ** Geometry Extractor ([parse_tin_geometry] of [src/func.py])

    [int] and [float] are Python's built-in conversions from strings;
    [None] stands for their [ValueError].  [parse_tin_geometry] below is the
    function from its line 17 on, applied to the tree [xml_soup] that was
    read; reading the file, with the error of lines 11 to 15, follows as
    [read_xml], and [parse_tin_file] is the function as a whole. *)

Section Extractor.
Variable py_int : string -> option Z.
Variable py_float : string -> option float.

(** [[int(x) for x in tokens]] *)
Fixpoint int_list (tokens : list string) : result (list Z) :=
  match tokens with
  | [] => Ok []
  | x :: rest =>
      match py_int x with
      | Some n => l <- int_list rest ;; Ok (n :: l)
      | None => Raise (LiteralError x)
      end
  end.

(** [[float(x) for x in tokens]] *)
Fixpoint float_list (tokens : list string) : result (list float) :=
  match tokens with
  | [] => Ok []
  | x :: rest =>
      match py_float x with
      | Some v => l <- float_list rest ;; Ok (v :: l)
      | None => Raise (LiteralError x)
      end
  end.

(** The loop over [find_all('F')]; the conversion is outside any [try]. *)
Fixpoint faces_loop (fs : list element) (faces : list (list Z))
    : result (list (list Z)) :=
  match fs with
  | [] => Ok faces
  | face :: rest =>
      face_list <- int_list (split_ws (text face)) ;;
      faces_loop rest
        (if Nat.eqb (length face_list) 3 then faces ++ [face_list] else faces)
  end.

(** [point_tag["id"]], with its [KeyError]. *)
Definition id_of (point_tag : element) : result string :=
  match get_attr "id" (attrs point_tag) with
  | Some v => Ok v
  | None => Raise (KeyError "id")
  end.

(** The body of the [try] for one [P] element. *)
Definition point_body (point_tag : element) (points : gmap Z vec3)
    : result (gmap Z vec3) :=
  v <- id_of point_tag ;;
  pid <- match py_int v with Some n => Ok n | None => Raise (LiteralError v) end ;;
  point_list <- float_list (split_ws (text point_tag)) ;;
  Ok (match point_list with
      | [x; y; z] => <[pid := Vec3 x y z]> points
      | _ => points
      end).

(** The loop over [find_all('P')]: [except (KeyError, ValueError)]
    catches whatever the body raises and raises the [ValueError] that
    names the element. *)
Fixpoint points_loop (ps : list element) (points : gmap Z vec3)
    : result (gmap Z vec3) :=
  match ps with
  | [] => Ok points
  | point_tag :: rest =>
      match point_body point_tag points with
      | Ok points' => points_loop rest points'
      | Raise _ => Raise (InvalidPoint point_tag)
      end
  end.

Definition parse_tin_geometry (doc : document)
    : result (gmap Z vec3 * list (list Z)) :=
  faces <- faces_loop (find_all "F" doc) [] ;;
  points <- points_loop (find_all "P" doc) ∅ ;;
  Ok (points, faces).

(** The two functions one after the other, tree in, centroid out. *)
Definition centroid_of_document (doc : document) : result (option vec3) :=
  pf <- parse_tin_geometry doc ;;
  compute_weighted_centroid (fst pf) (snd pf).

End Extractor.

(** *** Reading the file

    [open_xml] stands for the file system and the XML parser: what
    [open(xml_file, 'r', encoding='utf-8')] followed by
    [bs(file, 'lxml-xml')] gives for a file name, the tree or the message
    of the exception that was raised. *)

Section ExtractorFile.
Variable py_int : string -> option Z.
Variable py_float : string -> option float.
Variable open_xml : string -> document + string.

(** Lines 11 to 15: [except Exception as e] catches whatever the [with]
    block raises and raises the [ValueError] that carries its message. *)
Definition read_xml (xml_file : string) : result document :=
  match open_xml xml_file with
  | inl xml_soup => Ok xml_soup
  | inr e => Raise (ParseError e)
  end.

(** [parse_tin_geometry(xml_file)], lines 1 to 33. *)
Definition parse_tin_file (xml_file : string)
    : result (gmap Z vec3 * list (list Z)) :=
  xml_soup <- read_xml xml_file ;;
  parse_tin_geometry py_int py_float xml_soup.

(** The two functions one after the other, file in, centroid out. *)
Definition centroid_of_file (xml_file : string) : result (option vec3) :=
  pf <- parse_tin_file xml_file ;;
  compute_weighted_centroid (fst pf) (snd pf).

End ExtractorFile.

(** ** Scaler ([main] of [src/XML_scale.py])

    [float_str] is Python's [str] of a float, which renders the tokens
    after the third. *)

Section Scaler.
Variable py_int : string -> option Z.
Variable py_float : string -> option float.
Variable float_str : float -> string.
Variable scale_factor : float.

(** One string of an [F] element: the text it is replaced with. *)
Definition scale_face (face : string) : result string :=
  face_list <- int_list py_int (split_space face) ;;
  Ok (join_space (map str_int face_list)).

(** One string of a [P] element.  The three assignments by index raise
    [IndexError] on a list that is too short. *)
Definition scale_point (point : string) : result string :=
  point_list <- float_list py_float (split_space point) ;;
  match point_list with
  | x :: y :: z :: rest =>
      Ok (join_space (format_f 12 (x * scale_factor)%float
                      :: format_f 12 (y * scale_factor)%float
                      :: format_f 4 z
                      :: map float_str rest))
  | _ => Raise IndexError
  end.

(** [for child in tag: ... child.replace_with(...)] *)
Fixpoint rewrite_strings (f : string -> result string) (l : list string)
    : result (list string) :=
  match l with
  | [] => Ok []
  | s :: rest =>
      s' <- f s ;; rest' <- rewrite_strings f rest ;; Ok (s' :: rest')
  end.

(** [for tag in soup.find_all(name): ...], the tree being rewritten in
    place: the other elements stay as they are. *)
Fixpoint rewrite_all (tag : string) (f : string -> result string)
    (doc : document) : result document :=
  match doc with
  | [] => Ok []
  | e :: rest =>
      e' <- (if String.eqb (name e) tag
             then c <- rewrite_strings f (contents e) ;;
                  Ok (Element (name e) (attrs e) c)
             else Ok e) ;;
      rest' <- rewrite_all tag f rest ;;
      Ok (e' :: rest')
  end.

(** The document that is written out. *)
Definition scale_document (doc : document) : result document :=
  doc1 <- rewrite_all "F" scale_face doc ;;
  rewrite_all "P" scale_point doc1.

End Scaler.

(** ** Plain decimal literals

    The fragment of [int] and [float] that the examples below run on:
    optional white space around an optional sign and decimal digits, for
    floats with an optional fraction.  [float_literal] covers the literals
    whose digits form an integer below [2^53] with at most 22 of them after
    the point: that integer and the power of ten (at most [10^22], which is
    [2^22 * 5^22] with [5^22 < 2^53]) are doubles, and the value is their
    correctly rounded quotient.  Everything else is rejected here; the
    theorems are stated for arbitrary conversions. *)

Definition is_digit (c : ascii) : bool :=
  let n := nat_of_ascii c in (48 <=? n)%nat && (n <=? 57)%nat.

Fixpoint lstrip (s : string) : string :=
  match s with
  | String c s' => if is_space c then lstrip s' else s
  | EmptyString => s
  end.

Fixpoint string_rev (s acc : string) : string :=
  match s with
  | EmptyString => acc
  | String c s' => string_rev s' (String c acc)
  end.

Definition strip (s : string) : string :=
  string_rev (lstrip (string_rev (lstrip s) EmptyString)) EmptyString.

Fixpoint digits_value (s : string) (acc : Z) : option Z :=
  match s with
  | EmptyString => Some acc
  | String c s' =>
      if is_digit c
      then digits_value s' (10 * acc + (Z.of_nat (nat_of_ascii c) - 48))
      else None
  end.

(** The sign and what follows it. *)
Definition split_sign (s : string) : bool * string :=
  match s with
  | String "-" s' => (true, s')
  | String "+" s' => (false, s')
  | _ => (false, s)
  end.

Definition int_literal (s : string) : option Z :=
  let '(neg, body) := split_sign (strip s) in
  if is_empty body then None
  else match digits_value body 0 with
       | Some n => Some (if neg then - n else n)
       | None => None
       end.

(** The digits before the first point and the rest after it, if any. *)
Fixpoint split_point (s cur : string) : string * option string :=
  match s with
  | EmptyString => (cur, None)
  | String c s' =>
      if Ascii.eqb c "."%char then (cur, Some s')
      else split_point s' (cur ++ String c EmptyString)
  end.

(** The double nearest to an integer of any size. *)
Definition float_of_Z (z : Z) : float :=
  SF2Prim (binary_normalize prec emax z 0 false).

Definition float_literal (s : string) : option float :=
  let '(neg, body) := split_sign (strip s) in
  let '(ip, fp) := split_point body EmptyString in
  let fp := match fp with Some f => f | None => EmptyString end in
  if is_empty ip && is_empty fp then None
  else match digits_value (ip ++ fp) 0 with
       | Some m =>
           if (m <? 2 ^ 53) && (String.length fp <=? 22)%nat
           then let v := (float_of_Z m / float_of_Z (10 ^ Z.of_nat (String.length fp)))%float in
                Some (if neg then (- v)%float else v)
           else None
       | None => None
       end.

(** ** The specification's reading of the calculator

    The definitions of this section follow the words of the specification,
    to be compared with the functions above. *)

Definition triangle : Type := vec3 * vec3 * vec3.

(** The three vertices a face names, when its IDs are all in the mapping. *)
Definition vertices_of (points : gmap Z vec3) (face : list Z) : option triangle :=
  match face with
  | i :: j :: k :: _ =>
      match points !! i, points !! j, points !! k with
      | Some v1, Some v2, Some v3 => Some (v1, v2, v3)
      | _, _, _ => None
      end
  | _ => None
  end.

(** The area of a face as the specification defines it, written out on
    the coordinates: half the Euclidean norm of the cross product of the
    edge vectors [v2 - v1] and [v3 - v1].  The norm is the square root of
    the sum of the three squares, a sum that takes up one unrounded square
    after the other. *)
Definition area_of (t : triangle) : float :=
  let '(v1, v2, v3) := t in
  let ax := (vx v2 - vx v1)%float in
  let ay := (vy v2 - vy v1)%float in
  let az := (vz v2 - vz v1)%float in
  let bx := (vx v3 - vx v1)%float in
  let by_ := (vy v3 - vy v1)%float in
  let bz := (vz v3 - vz v1)%float in
  let cx := (ay * bz - az * by_)%float in
  let cy := (az * bx - ax * bz)%float in
  let cz := (ax * by_ - ay * bx)%float in
  (0.5 * sqrt (fma cz cz (fma cy cy (fma cx cx 0))))%float.

(** The unweighted average of the three vertices. *)
Definition average_of (t : triangle) : vec3 :=
  let '(v1, v2, v3) := t in
  Vec3 ((vx v1 + vx v2 + vx v3) / 3)%float
       ((vy v1 + vy v2 + vy v3) / 3)%float
       ((vz v1 + vz v2 + vz v3) / 3)%float.

(** [sum(area_i * centroid_i)] and [sum(area_i)], in the order of the list. *)
Definition weighted_sum (ts : list triangle) : vec3 :=
  fold_left (fun acc t => vadd acc (vscale (area_of t) (average_of t))) ts zeros3.

Definition area_sum (ts : list triangle) : float :=
  fold_left (fun acc t => (acc + area_of t)%float) ts 0%float.

(** A face whose IDs are not all in the mapping. *)
Definition dangling (points : gmap Z vec3) (face : list Z) : Prop :=
  exists k, In k face /\ points !! k = None.

(** The exact value of a double that is a number. *)
Definition exact (x : float) : option Q :=
  match Prim2SF x with
  | S754_zero _ => Some 0%Q
  | S754_finite s m e =>
      let v := (inject_Z (Z.pos m) * Qpower 2 e)%Q in
      Some (if s then Qopp v else v)
  | _ => None
  end.

(** Collinear points: the cross product of the two edge vectors, taken
    exactly, is the zero vector. *)
Definition collinear (v1 v2 v3 : vec3) : bool :=
  match exact (vx v1), exact (vy v1), exact (vz v1),
        exact (vx v2), exact (vy v2), exact (vz v2),
        exact (vx v3), exact (vy v3), exact (vz v3) with
  | Some x1, Some y1, Some z1, Some x2, Some y2, Some z2,
    Some x3, Some y3, Some z3 =>
      let '(ax, ay, az) := (x2 - x1, y2 - y1, z2 - z1)%Q in
      let '(bx, by_, bz) := (x3 - x1, y3 - y1, z3 - z1)%Q in
      Qeq_bool (ay * bz - az * by_) 0 &&
      Qeq_bool (az * bx - ax * bz) 0 &&
      Qeq_bool (ax * by_ - ay * bx) 0
  | _, _, _, _, _, _, _, _, _ => false
  end.

(** A double that is a number: neither NaN nor an infinity. *)
Definition finite (x : float) : bool :=
  match Prim2SF x with
  | S754_zero _ | S754_finite _ _ _ => true
  | _ => false
  end.

Definition finite3 (v : vec3) : bool := finite (vx v) && finite (vy v) && finite (vz v).

(** A double that is a zero, of either sign. *)
Definition is_zero_float (x : float) : bool :=
  match Prim2SF x with S754_zero _ => true | _ => false end.

(** The six products [np.cross] forms are all numbers. *)
Definition products_finite (a b : vec3) : bool :=
  finite (vy a * vz b) && finite (vz a * vy b) &&
  finite (vz a * vx b) && finite (vx a * vz b) &&
  finite (vx a * vy b) && finite (vy a * vx b).

(** A triangle with a vertex used twice. *)
Definition duplicate (v1 v2 v3 : vec3) : Prop := v1 = v2 \/ v1 = v3 \/ v2 = v3.

(** A face that is degenerate by a repeated vertex, the six products of
    its cross product being numbers. *)
Definition repeated_vertex (t : triangle) : Prop :=
  let '(v1, v2, v3) := t in
  duplicate v1 v2 v3 /\ products_finite (vsub v2 v1) (vsub v3 v1) = true.

(** ** The specification's reading of the Extractor and the Scaler *)

Section Readings.
Variable py_int : string -> option Z.
Variable py_float : string -> option float.

(** The white-space separated tokens of a face element are integers. *)
Definition face_tokens (face : element) (l : list Z) : Prop :=
  int_list py_int (split_ws (text face)) = Ok l.

(** The [id] attribute is there and is an integer. *)
Definition has_id (p : element) (pid : Z) : Prop :=
  exists v, get_attr "id" (attrs p) = Some v /\ py_int v = Some pid.

(** The white-space separated tokens of a point element are floats. *)
Definition point_tokens (p : element) (l : list float) : Prop :=
  float_list py_float (split_ws (text p)) = Ok l.

(** The text yields exactly three floats. *)
Definition three_floats (p : element) : Prop :=
  exists x y z, point_tokens p [x; y; z].

(** What the specification makes an invalid point: no integer [id], or
    a text that is not exactly three floats. *)
Definition invalid_point_spec (p : element) : Prop :=
  (forall pid, ~ has_id p pid) \/ ~ three_floats p.

(** What the [try] of the code rejects: no integer [id], or a token
    that is not a float. *)
Definition invalid_point_code (p : element) : Prop :=
  (forall pid, ~ has_id p pid) \/ (forall l, ~ point_tokens p l).

(** A point element that enters the mapping under [pid]. *)
Definition stores (p : element) (pid : Z) (v : vec3) : Prop :=
  has_id p pid /\ point_tokens p [vx v; vy v; vz v].

(** The strings of a face element, cut at single spaces, are integers;
    those of a point element are at least three floats. *)
Definition face_pieces_ok (e : element) : Prop :=
  Forall (fun s => exists l, int_list py_int (split_space s) = Ok l) (contents e).

Definition point_pieces_ok (e : element) : Prop :=
  Forall (fun s => exists l, float_list py_float (split_space s) = Ok l
                             /\ (3 <= length l)%nat) (contents e).

(** The specification's condition on a point element for the Scaler: its
    text splits into at least three white-space separated floats. *)
Definition at_least_three_floats (p : element) : Prop :=
  exists l, point_tokens p l /\ (3 <= length l)%nat.

End Readings.

(** A decimal rendering with exactly [digits] digits after the point:
    an optional minus sign, at least one digit, the point, the digits. *)
Fixpoint all_digits (s : string) : bool :=
  match s with
  | EmptyString => true
  | String c s' => is_digit c && all_digits s'
  end.

Definition fixed_point (digits : nat) (s : string) : bool :=
  let body := match s with String "-" s' => s' | _ => s end in
  match split_point body EmptyString with
  | (ip, Some fp) =>
      negb (is_empty ip) && all_digits ip && all_digits fp
      && Nat.eqb (String.length fp) digits
  | (_, None) => false
  end.

(** An element whose strings were each replaced by what [f] gives. *)
Definition rewritten_as (f : string -> result string) (e e' : element) : Prop :=
  name e' = name e /\ attrs e' = attrs e
  /\ Forall2 (fun s s' => f s = Ok s') (contents e) (contents e').

(** What the Scaler makes of an element: the rewritten [F] or [P]
    element, and any other element as it was. *)
Definition scaled_element (py_int : string -> option Z)
    (py_float : string -> option float) (float_str : float -> string)
    (scale_factor : float) (e e' : element) : Prop :=
  if String.eqb (name e) "F" then rewritten_as (scale_face py_int) e e'
  else if String.eqb (name e) "P"
       then rewritten_as (scale_point py_float float_str scale_factor) e e'
       else e' = e.

(** The exceptions of the Scaler that the specification calls
    [MalformedElement]: a token that does not convert, or too few of
    them. *)
Definition malformed_element (e : error) : Prop :=
  e = IndexError \/ exists tok, e = LiteralError tok.

(** A fixed-point rendering read back as a whole number of units in its
    last place, with its sign. *)
Definition decimal_units (s : string) : option Z :=
  let '(neg, body) :=
    match s with String "-" s' => (true, s') | _ => (false, s) end in
  match split_point body EmptyString with
  | (ip, Some fp) =>
      match digits_value (ip ++ fp) 0 with
      | Some n => Some (if neg then - n else n)
      | None => None
      end
  | (_, None) => None
  end.

(** The rendering [s] is the number [x] rounded to [digits] decimals: it
    reads as the whole number of units of [10^-digits] that is nearest to
    the exact value of [x]. *)
Definition rounds_to (digits : nat) (x : float) (s : string) : Prop :=
  exists n r, decimal_units s = Some n /\ exact x = Some r
    /\ (Qabs (inject_Z n - r * inject_Z (10 ^ Z.of_nat digits)) <= 1 # 2)%Q.

(** ** Example data *)

(** The unit square of the specification's centroid test, cut along a
    diagonal. *)
Definition unit_square : gmap Z vec3 :=
  <[4 := Vec3 0 1 0]> (<[3 := Vec3 1 1 0]> (<[2 := Vec3 1 0 0]> (<[1 := Vec3 0 0 0]> ∅))).

Definition square_faces : list (list Z) := [[1; 2; 3]; [1; 3; 4]].

Definition square_triangles : list triangle :=
  [(Vec3 0 0 0, Vec3 1 0 0, Vec3 1 1 0); (Vec3 0 0 0, Vec3 1 1 0, Vec3 0 1 0)].

(** Three points of the line [y = 3 x] in the plane [z = 0]; the last one is
    [(2^54, 3 * 2^54, 0)]. *)
Definition line_p1 : vec3 := Vec3 3 9 0.
Definition line_p2 : vec3 := Vec3 4 12 0.
Definition line_p3 : vec3 := Vec3 18014398509481984 54043195528445952 0.

(** The three points as a mapping, and faces made of them: each face is
    a segment. *)
Definition line_points : gmap Z vec3 :=
  <[3 := line_p3]> (<[2 := line_p2]> (<[1 := line_p1]> ∅)).

Definition line_faces : list (list Z) := [[1; 2; 3]; [2; 1; 3]; [1; 1; 2]].

Definition line_triangles : list triangle :=
  [(line_p1, line_p2, line_p3); (line_p2, line_p1, line_p3); (line_p1, line_p1, line_p2)].

(** Two faces of unequal area that share the origin: a right triangle
    with legs 3 and 3 in the plane [z = 0], and one with legs 3 and 6 in
    the plane [x = 0]. *)
Definition unequal_points : gmap Z vec3 :=
  <[5 := Vec3 0 (-6) 0]> (<[4 := Vec3 0 0 3]> (<[3 := Vec3 0 3 0]>
    (<[2 := Vec3 3 0 0]> (<[1 := Vec3 0 0 0]> ∅)))).

Definition unequal_faces : list (list Z) := [[1; 2; 3]; [1; 4; 5]].

Definition unequal_triangles : list triangle :=
  [(Vec3 0 0 0, Vec3 3 0 0, Vec3 0 3 0); (Vec3 0 0 0, Vec3 0 0 3, Vec3 0 (-6) 0)].

(** A mapping with two points and faces that use one of them twice, or a
    third ID that is not there. *)
Definition two_points : gmap Z vec3 :=
  <[2 := Vec3 1 0 0]> (<[1 := Vec3 0 0 0]> ∅).

(** The largest double. *)
Definition max_float : float := 0x1.fffffffffffffp1023%float.

(** A rendering of floats for the examples, none of which has a fourth
    token. *)
Definition no_repr (x : float) : string := EmptyString.

(** Documents: a small TIN with a repeated point ID and a face of four
    IDs, and documents with one irregular element each. *)
Definition small_tin : document :=
  [ Element "Pnts" [] [];
    Element "P" [("id", "1")] ["0 0 0"];
    Element "P" [("id", "2")] ["1 0 0"];
    Element "P" [("id", "3")] ["5 5 5"];
    Element "P" [("id", "3")] ["1 1 0"];
    Element "P" [("id", "4")] ["0 1 0"];
    Element "Faces" [] [];
    Element "F" [] ["1 2 3"];
    Element "F" [] ["1 2 3 4"];
    Element "F" [] ["1 3 4"] ]%string.

Definition two_coordinates : document :=
  [ Element "P" [("id", "1")] ["1 2"] ]%string.

Definition bad_face : document :=
  [ Element "F" [] ["1 2 3"]; Element "F" [] ["1 x 3"];
    Element "P" [] ["0 0 0"] ]%string.

Definition double_space : document :=
  [ Element "F" [] ["1 2 3"]; Element "P" [("id", "1")] ["1  2 3"] ]%string.

Definition missing_id : document :=
  [ Element "F" [] ["1 2 3"];
    Element "P" [("id", "1")] ["0 0 0"];
    Element "P" [("name", "b")] ["1 1 1"];
    Element "P" [("id", "x")] ["2 2 2"] ]%string.

Definition empty_point : document :=
  [ Element "P" [("id", "1")] [] ]%string.

(** ** What [main] prints

    [main] of [src/XML_scale.py], from the parsed input to the tree it
    writes and the three counts it prints after writing: the [Surface],
    [Breakline] and [P] elements of the rewritten tree.  (It prints the
    scale factor as well.) *)

Definition report (doc : document) : nat * nat * nat :=
  (length (find_all "Surface" doc),
   length (find_all "Breakline" doc),
   length (find_all "P" doc)).

Definition main (py_int : string -> option Z) (py_float : string -> option float)
    (float_str : float -> string) (scale_factor : float) (doc : document)
    : result (document * (nat * nat * nat)) :=
  xml_soup <- scale_document py_int py_float float_str scale_factor doc ;;
  Ok (xml_soup, report xml_soup).

(** ** Further notions for stating properties *)

(** A double that is not below zero: a NaN, a zero of either sign, a
    positive number or the positive infinity. *)
Definition not_negative (x : float) : Prop := (x <? 0)%float = false.

Definition sf_not_negative (f : spec_float) : bool :=
  match f with
  | S754_infinity s | S754_finite s _ _ => negb s
  | _ => true
  end.

(** The same number up to the sign of a zero. *)
Definition same_number (x y : float) : Prop :=
  x = y \/ (is_zero_float x = true /\ is_zero_float y = true).

Definition same_point (a b : vec3) : Prop :=
  same_number (vx a) (vx b) /\ same_number (vy a) (vy b) /\ same_number (vz a) (vz b).

(** The same outcome of the calculator: the same error, [None] twice, or
    two points that are the same up to the sign of a zero. *)
Definition same_centroid (r r' : result (option vec3)) : Prop :=
  match r, r' with
  | Ok None, Ok None => True
  | Ok (Some c), Ok (Some c') => same_point c c'
  | Raise e, Raise e' => e = e'
  | _, _ => False
  end.

(** Two renderings of opposite numbers: they differ by the minus sign, or
    both are ["nan"]. *)
Definition mirrored (a b : string) : Prop :=
  (a = "nan" /\ b = "nan")%string
  \/ b = String "-" a \/ a = String "-" b.

(** A string without a space character, and one without white space. *)
Fixpoint no_space (s : string) : bool :=
  match s with
  | EmptyString => true
  | String c s' => negb (Ascii.eqb c " "%char) && no_space s'
  end.



(** The sign bit of a double; a NaN is printed without a sign. *)
Definition sign_bit (x : float) : bool :=
  match Prim2SF x with
  | S754_zero s | S754_infinity s | S754_finite s _ _ => s
  | S754_nan => false
  end.

(** A token rendered from [v] with [digits] decimals: for a number, a
    fixed-point rendering; for an infinity or a NaN, its name. *)
Definition token_of (digits : nat) (v : float) (tok : string) : Prop :=
  if finite v then fixed_point digits tok = true
  else (v = infinity /\ tok = "inf"%string)
       \/ (v = neg_infinity /\ tok = "-inf"%string)
       \/ (v = nan /\ tok = "nan"%string).

(** The first string, in document order, that [f] rejects among the
    strings of the elements [els], and the error it is rejected with. *)
Definition first_failure (f : string -> result string) (els : list element)
    (e : error) : Prop :=
  exists pre el post before s after,
    els = pre ++ el :: post
    /\ Forall (fun x => Forall (fun s => exists s', f s = Ok s') (contents x)) pre
    /\ contents el = before ++ s :: after
    /\ Forall (fun s => exists s', f s = Ok s') before
    /\ f s = Raise e.

(** No two elements of the list carry the same ID. *)
Definition unique_ids (py_int : string -> option Z) (ps : list element) : Prop :=
  List.NoDup ps
  /\ forall p q pid, In p ps -> In q ps ->
       has_id py_int p pid -> has_id py_int q pid -> p = q.

(** ** Further example data *)

(** What the Scaler makes of [small_tin] with the factor 2.5. *)
Definition small_tin_scaled : document :=
  Eval vm_compute in
    match scale_document int_literal float_literal no_repr 2.5 small_tin with
    | Ok doc' => doc'
    | Raise _ => []
    end.

(** A face that names a point that is not there; faces that are no
    triangles; two points in either order. *)
Definition dangling_tin : document :=
  [ Element "P" [("id", "1")] ["0 0 0"];
    Element "P" [("id", "2")] ["1 0 0"];
    Element "F" [] ["1 2 9"] ]%string.

(** A directory with that one file. *)
Definition tin_files (xml_file : string) : document + string :=
  if String.eqb xml_file "dangling.xml" then inl dangling_tin
  else inr ("[Errno 2] No such file or directory: '" ++ xml_file ++ "'")%string.

Definition no_triangles : document :=
  [ Element "P" [("id", "1")] ["0 0 0"];
    Element "F" [] ["1 2"];
    Element "F" [] ["1 2 3 4"] ]%string.

Definition points_then_face : document :=
  [ Element "P" [("id", "1")] ["0 0 0"];
    Element "P" [("id", "2")] ["1 0 0"];
    Element "F" [] ["1 2 2"] ]%string.

Definition face_between_points : document :=
  [ Element "P" [("id", "2")] ["1 0 0"];
    Element "F" [] ["1 2 2"];
    Element "P" [("id", "1")] ["0 0 0"] ]%string.

(** * Running the embedding *)

Example split_ws_drops_empty_pieces :
  split_ws "  1 2	3  " = ["1"; "2"; "3"]%string /\ split_ws EmptyString = [].
Proof. split; reflexivity. Qed.

Example split_space_keeps_empty_pieces :
  split_space "1  2 3" = ["1"; EmptyString; "2"; "3"]%string
  /\ split_space EmptyString = [EmptyString].
Proof. split; reflexivity. Qed.

Example str_int_examples :
  map str_int [0; 7; -17; 1234567890123] = ["0"; "7"; "-17"; "1234567890123"]%string.
Proof. reflexivity. Qed.

Example format_f_examples :
  map (format_f 12) [0; -0; 1; -1.5; 123456.789; nan; infinity]%float
  = ["0.000000000000"; "-0.000000000000"; "1.000000000000"; "-1.500000000000";
     "123456.789000000004"; "nan"; "inf"]%string
  /\ map (format_f 4) [0.5; 2.675; 0.99995; 0.00015]%float
     = ["0.5000"; "2.6750"; "1.0000"; "0.0001"]%string.
Proof. split; vm_compute; reflexivity. Qed.

(** One rounding, not two: the square of [1 + 2^-52] is
    [1 + 2^-51 + 2^-104], and rounds to [1 + 2^-51].  Then exact sums, a
    zero product added to a zero of either sign, a product too small for a
    double that keeps its sign, a product too large for a double, and the
    operations without a value. *)
Example fma_examples :
  fma 0x1.0000000000001p0 0x1.0000000000001p0 (-0x1.0000000000002p0) = 0x1p-104%float
  /\ (0x1.0000000000001p0 * 0x1.0000000000001p0 + -0x1.0000000000002p0 = 0)%float
  /\ map (fun t => let '(x, y, z) := t in fma x y z)
         [(3, 4, 5); (2, 3, -6); (0, -1, 0); (0, -1, -0); (-0x1p-600, 0x1p-600, 0);
          (0x1p600, 0x1p600, -0x1p1023); (0x1p600, 0x1p600, neg_infinity);
          (infinity, 0, 1); (infinity, 1, neg_infinity)]%float
     = [17; 0; 0; -0; -0; infinity; neg_infinity; nan; nan]%float.
Proof. repeat split; vm_compute; reflexivity. Qed.

(** Products and sums of the three kinds, those that nearly cancel, of
    moderate size, and near the ends of the range, with the double nearest
    to the exact [x * y + z]; for each of them the rounded product plus [z]
    is another double. *)
Example fma_rounds_once :
  let cases :=
    [(-0x1.dda1473cf256dp+1, 0x1.c7fdeec99108dp+0, 0x1.a961b5c25e341p+2);
     (0x1.dae448201e2bdp+1, 0x1.cdcc62f45e678p+1, -0x1.ac541dae021edp+3);
     (0x1.9d2c6a13ffe79p+3, 0x1.7253e18187993p-1, -0x1.2ad8c95631e7bp+3);
     (0x1.9d958bd299753p+2, -0x1.03d719f8558a6p+3, 0x1.0f3eb102b938bp-6);
     (-0x1.bd4ae2891dd3cp+2, -0x1.3253b8dce6f52p+2, -0x1.e1d736361b9f8p+1);
     (-0x1.ea3a0ead81dcdp-2, 0x1.11b41043e3ef5p-1, 0x1.3fc2a7219c1dap-6);
     (0x1.637095484b3dbp+34, 0x1.766e670c61508p+29, 0x1.c00dc84c955f1p+51);
     (0x1.1d849a111f5fbp+17, -0x1.890f6a1455615p+7, 0x1.af3ae13f5bc90p-30);
     (0x1.79a2ed2e708c8p-8, -0x1.02c19b6d75031p+20, 0x1.0942cb6d3e879p-35);
     (-0x1.fff47260f99ddp-504, -0x1.84a99b93ba587p-506, -0x0.0000000002fc3p-1022);
     (-0x1.05f3b6fd08d91p-508, -0x1.d33ef69d4b6ccp-504, -0x0.00000000000c5p-1022);
     (0x1.e7b4b83cb86dfp-502, 0x1.3087b25849de2p-515, -0x0.000000000004bp-1022);
     (0x1.4p-536, 0x1p-537, 0x0.0000000000001p-1022);
     (0x1.31f3cebff2ec1p+509, 0x1.833721844ebd1p+512, -0x1.e4a7c52ddc9acp+1015);
     (-0x1.b4655d7872ca2p+510, 0x1.91d6c678df63ep+509, -0x1.95a958119101ep+1017);
     (-0x1.8cd095741cca6p+508, -0x1.f79636a6a7ad6p+508, -0x1.febf3d8acacfdp+1015)]%float in
  map (fun t => let '(x, y, z) := t in fma x y z) cases
  = [-0x1.c32a92b26da12p-52; 0x1.6351db9448b4cp-49; -0x1.1b321eb435f0ap-51;
     -0x1.a3a7e72d2c828p+5; 0x1.d89a3cd6a590cp+4; -0x1.e42864bac8908p-3;
     0x1.03fde233e21d2p+64; -0x1.b661c198e58b6p+24; -0x1.7db3cc24ba047p+12;
     0x1.84a0d66d75cf5p-1009; 0x1.de1c042f0de82p-1012; 0x1.22148f6c8efd7p-1016;
     0x0.0000000000004p-1022;
     0x1.c732d5e76d7d4p+1021; -0x1.89359e3f52ae4p+1020; 0x1.069b86e7d1f16p+1017]%float
  /\ forallb (fun t => let '(x, y, z) := t in negb (fma x y z =? x * y + z)%float)
       cases = true.
Proof. split; vm_compute; reflexivity. Qed.

(** The sum of squares inside the norm: the area of a triangle with
    short decimal coordinates, and what three rounded squares added one by
    one would give, one unit in the last place above. *)
Example triangle_area_fused_sum :
  compute_triangle_area (Vec3 0.8 0.5 0.6) (Vec3 0.6 0.7 0.5) (Vec3 0.2 0.1 2.3)
  = 0x1.13b86ea20ae5cp-2%float
  /\ (let c := cross (vsub (Vec3 0.6 0.7 0.5) (Vec3 0.8 0.5 0.6))
                     (vsub (Vec3 0.2 0.1 2.3) (Vec3 0.8 0.5 0.6)) in
      0.5 * sqrt (vx c * vx c + vy c * vy c + vz c * vz c))%float
     = 0x1.13b86ea20ae5dp-2%float.
Proof. split; vm_compute; reflexivity. Qed.

(** Literals with a long fraction. *)
Example float_literal_examples :
  map float_literal ["1.5"; "-0.25"; " 10.12345 "; "7"; ".5"; "3.";
                     "0.0000000000000000000001"; "1.2.3"; "."]%string
  = [Some 1.5; Some (-0.25); Some 10.12345; Some 7; Some 0.5; Some 3;
     Some 1e-22; None; None]%float.
Proof. vm_compute. reflexivity. Qed.

(** The area test of the specification: a right triangle with unit legs,
    and three collinear points with small integer coordinates. *)
Example triangle_area_examples :
  compute_triangle_area (Vec3 0 0 0) (Vec3 1 0 0) (Vec3 0 1 0) = 0.5%float
  /\ compute_triangle_area (Vec3 0 0 0) (Vec3 1 1 1) (Vec3 2 2 2) = 0%float.
Proof. split; reflexivity. Qed.

Example small_tin_centroid :
  centroid_of_document int_literal float_literal small_tin
  = Ok (Some (Vec3 0.5 0.5 0)).
Proof. vm_compute. reflexivity. Qed.

Example small_tin_scaled_points :
  exists doc',
    scale_document int_literal float_literal no_repr 2.5 small_tin = Ok doc'
    /\ find_all "P" doc'
       = [ Element "P" [("id", "1")] ["0.000000000000 0.000000000000 0.0000"];
           Element "P" [("id", "2")] ["2.500000000000 0.000000000000 0.0000"];
           Element "P" [("id", "3")] ["12.500000000000 12.500000000000 5.0000"];
           Element "P" [("id", "3")] ["2.500000000000 2.500000000000 0.0000"];
           Element "P" [("id", "4")] ["0.000000000000 2.500000000000 0.0000"] ]%string.
Proof. eexists. split; vm_compute; reflexivity. Qed.

(** * Facts about doubles *)


Lemma sub_diag_finite x : finite x = true -> (x - x)%float = 0%float.
Proof.
  unfold finite. intros H. apply Prim2SF_inj. rewrite sub_spec.
  destruct (Prim2SF x) as [s|s| |s m e]; try discriminate.
  - destruct s; reflexivity.
  - unfold SF64sub, SFsub. rewrite Z.sub_diag. reflexivity.
Qed.

Lemma mul_comm x y : (x * y)%float = (y * x)%float.
Proof.
  apply Prim2SF_inj. rewrite !mul_spec. unfold SF64mul.
  destruct (Prim2SF x) as [s|s| |s m e], (Prim2SF y) as [s'|s'| |s' m' e'];
    simpl; try reflexivity; rewrite ?(xorb_comm s s'); try reflexivity.
  now rewrite (Pos.mul_comm m m'), (Z.add_comm e e').
Qed.

Lemma is_zero_mul_l x y : is_zero_float x = true -> finite y = true -> is_zero_float (x * y) = true.
Proof.
  unfold is_zero_float, finite. rewrite mul_spec. unfold SF64mul.
  destruct (Prim2SF x), (Prim2SF y); simpl; congruence.
Qed.

Lemma is_zero_mul_r x y : finite x = true -> is_zero_float y = true -> is_zero_float (x * y) = true.
Proof. intros. rewrite mul_comm. now apply is_zero_mul_l. Qed.

Lemma is_zero_sub x y : is_zero_float x = true -> is_zero_float y = true -> is_zero_float (x - y) = true.
Proof.
  unfold is_zero_float. rewrite sub_spec. unfold SF64sub.
  destruct (Prim2SF x) as [[]| | |], (Prim2SF y) as [[]| | |]; simpl; congruence.
Qed.

(** The square of a zero, added to the positive zero. *)
Lemma fma_zero_square x : is_zero_float x = true -> fma x x 0 = 0%float.
Proof.
  unfold is_zero_float, fma. change (Prim2SF 0) with (S754_zero false).
  destruct (Prim2SF x) as [[]| | |]; try discriminate; reflexivity.
Qed.

Lemma is_zero_0 : is_zero_float 0 = true.
Proof. reflexivity. Qed.

Lemma eqb_0_is_zero t : (t =? 0)%float = true <-> is_zero_float t = true.
Proof.
  unfold is_zero_float. rewrite FloatAxioms.eqb_spec.
  change (Prim2SF 0) with (S754_zero false).
  destruct (Prim2SF t) as [s|s| |s m e]; simpl; try destruct s; simpl; intuition congruence.
Qed.

Lemma is_zero_not_positive t : is_zero_float t = true -> (0 <? t)%float = false.
Proof.
  unfold is_zero_float. rewrite FloatAxioms.ltb_spec.
  change (Prim2SF 0) with (S754_zero false).
  destruct (Prim2SF t); cbv; congruence.
Qed.

Lemma is_zero_add x y : is_zero_float x = true -> is_zero_float y = true -> is_zero_float (x + y) = true.
Proof.
  unfold is_zero_float. rewrite add_spec. unfold SF64add.
  destruct (Prim2SF x) as [[]| | |], (Prim2SF y) as [[]| | |]; simpl; congruence.
Qed.

Lemma finite_mul_inv x y : finite (x * y) = true -> finite x = true /\ finite y = true.
Proof.
  unfold finite. rewrite mul_spec. unfold SF64mul.
  destruct (Prim2SF x), (Prim2SF y); simpl; auto.
Qed.

Lemma finite_sub_diag_inv x : finite (x - x) = true -> (x - x)%float = 0%float.
Proof.
  intros H. apply sub_diag_finite. revert H.
  unfold finite. rewrite sub_spec. unfold SF64sub.
  destruct (Prim2SF x) as [[]|[]| |]; simpl; auto.
Qed.

(** The area of a triangle whose computed cross product is zero. *)
Lemma half_norm_zero c :
  is_zero_float (vx c) = true -> is_zero_float (vy c) = true ->
  is_zero_float (vz c) = true ->
  (0.5 * norm c)%float = 0%float.
Proof.
  intros Hx Hy Hz. unfold norm, dot.
  rewrite (fma_zero_square _ Hx), (fma_zero_square _ Hy), (fma_zero_square _ Hz).
  reflexivity.
Qed.

(** * The calculator *)

Lemma resolve_vertices points face t :
  vertices_of points face = Some t -> resolve points face = Ok t.
Proof.
  unfold vertices_of, resolve, index, point_of.
  destruct face as [|i [|j [|k rest]]]; try discriminate. simpl.
  destruct (points !! i); try discriminate.
  destruct (points !! j); try discriminate.
  destruct (points !! k); try discriminate.
  now intros [= <-].
Qed.

Lemma resolve_dangling points face :
  length face = 3%nat -> dangling points face ->
  resolve points face = Raise (DanglingReference face).
Proof.
  intros Hlen (k & Hin & Hk).
  destruct face as [|i [|j [|l [|? ?]]]]; try discriminate.
  unfold resolve, index, point_of. simpl.
  destruct (points !! i) eqn:Hi; [|reflexivity].
  destruct (points !! j) eqn:Hj; [|reflexivity].
  destruct (points !! l) eqn:Hl; [|reflexivity].
  simpl in Hin. destruct Hin as [<-|[<-|[<-|[]]]]; congruence.
Qed.

Lemma not_dangling_vertices points face :
  length face = 3%nat -> ~ dangling points face ->
  exists t, vertices_of points face = Some t.
Proof.
  intros Hlen Hnd.
  destruct face as [|i [|j [|l [|? ?]]]]; try discriminate.
  unfold vertices_of.
  destruct (points !! i) eqn:Hi;
    [|exfalso; apply Hnd; exists i; simpl; auto].
  destruct (points !! j) eqn:Hj;
    [|exfalso; apply Hnd; exists j; simpl; auto].
  destruct (points !! l) eqn:Hl;
    [|exfalso; apply Hnd; exists l; simpl; auto].
  eauto.
Qed.

Lemma dangling_dec points face : dangling points face \/ ~ dangling points face.
Proof.
  unfold dangling. induction face as [|k face IH].
  - right. intros (k & [] & _).
  - destruct (points !! k) eqn:Hk.
    + destruct IH as [(k' & Hin & Hk')|IH].
      * left. exists k'. simpl. auto.
      * right. intros (k' & [<-|Hin] & Hk'); [congruence|]. apply IH. eauto.
    + left. exists k. simpl. auto.
Qed.

(** The loop, on faces that resolve, is the pair of the two sums. *)
Lemma centroid_loop_sums points faces ts :
  Forall2 (fun face t => vertices_of points face = Some t) faces ts ->
  forall acc,
    centroid_loop points faces acc =
    Ok (fold_left (fun a t => vadd a (vscale (area_of t) (average_of t))) ts (fst acc),
        fold_left (fun a t => (a + area_of t)%float) ts (snd acc)).
Proof.
  induction 1 as [|face t faces ts Hface _ IH]; intros [twc ta].
  - reflexivity.
  - simpl. rewrite (resolve_vertices _ _ _ Hface). simpl.
    destruct t as [[v1 v2] v3]. rewrite IH. reflexivity.
Qed.

Lemma compute_weighted_centroid_sums points faces ts :
  Forall2 (fun face t => vertices_of points face = Some t) faces ts ->
  compute_weighted_centroid points faces =
  Ok (if (0 <? area_sum ts)%float
      then Some (vdiv (weighted_sum ts) (area_sum ts))
      else None).
Proof.
  intros H. unfold compute_weighted_centroid.
  rewrite (centroid_loop_sums _ _ _ H). reflexivity.
Qed.

Lemma area_sum_zero ts :
  Forall (fun t => (area_of t =? 0)%float = true) ts ->
  forall a, is_zero_float a = true ->
  is_zero_float (fold_left (fun a t => (a + area_of t)%float) ts a) = true.
Proof.
  induction 1 as [|t ts Ht _ IH]; intros a Ha; simpl.
  - exact Ha.
  - apply IH. apply is_zero_add; [exact Ha|]. now apply eqb_0_is_zero.
Qed.

Lemma centroid_loop_dangling points faces :
  Forall (fun face => length face = 3%nat) faces ->
  Exists (dangling points) faces ->
  exists pre face post,
    faces = pre ++ face :: post /\
    Forall (fun f => ~ dangling points f) pre /\
    dangling points face /\
    forall acc, centroid_loop points faces acc = Raise (DanglingReference face).
Proof.
  induction 1 as [|face faces Hlen Hall IH]; intros Hex.
  - inversion Hex.
  - destruct (dangling_dec points face) as [Hd|Hnd].
    + exists [], face, faces. repeat split; auto.
      intros acc. simpl. now rewrite resolve_dangling.
    + assert (Hex' : Exists (dangling points) faces).
      { inversion Hex; subst; [contradiction|assumption]. }
      destruct (IH Hex') as (pre & f & post & -> & Hpre & Hf & Hloop).
      exists (face :: pre), f, post. repeat split; auto.
      intros acc. simpl.
      destruct (not_dangling_vertices _ _ Hlen Hnd) as [t Ht].
      rewrite (resolve_vertices _ _ _ Ht). simpl.
      destruct t as [[v1 v2] v3]. apply Hloop.
Qed.

(** ** Triangles with a repeated vertex *)

Lemma area_first_edge_zero (a b : vec3) :
  a = zeros3 -> finite3 b = true ->
  (0.5 * norm (cross a b))%float = 0%float.
Proof.
  intros -> Hb. unfold finite3 in Hb.
  apply andb_prop in Hb as [Hb Hz]. apply andb_prop in Hb as [Hx Hy].
  apply half_norm_zero; simpl;
    apply is_zero_sub; apply is_zero_mul_l; auto using is_zero_0.
Qed.

Lemma area_second_edge_zero (a b : vec3) :
  b = zeros3 -> finite3 a = true ->
  (0.5 * norm (cross a b))%float = 0%float.
Proof.
  intros -> Ha. unfold finite3 in Ha.
  apply andb_prop in Ha as [Ha Hz]. apply andb_prop in Ha as [Hx Hy].
  apply half_norm_zero; simpl;
    apply is_zero_sub; apply is_zero_mul_r; auto using is_zero_0.
Qed.

Lemma products_finite_edges a b :
  products_finite a b = true -> finite3 a = true /\ finite3 b = true.
Proof.
  unfold products_finite, finite3. intros H.
  repeat (apply andb_prop in H as [H ?]).
  repeat match goal with
         | Hm : finite (_ * _) = true |- _ => apply finite_mul_inv in Hm as [? ?]
         end.
  split; repeat (apply andb_true_intro; split); assumption.
Qed.

Lemma vsub_diag_zero v : finite3 (vsub v v) = true -> vsub v v = zeros3.
Proof.
  unfold finite3, vsub, zeros3. simpl. intros H.
  repeat (apply andb_prop in H as [H ?]).
  now rewrite !finite_sub_diag_inv.
Qed.

Lemma area_duplicate v1 v2 v3 :
  duplicate v1 v2 v3 ->
  products_finite (vsub v2 v1) (vsub v3 v1) = true ->
  compute_triangle_area v1 v2 v3 = 0%float.
Proof.
  unfold compute_triangle_area. intros [<-|[<-|<-]] Hfin.
  - destruct (products_finite_edges _ _ Hfin) as [Ha Hb].
    apply area_first_edge_zero; [now apply vsub_diag_zero | exact Hb].
  - destruct (products_finite_edges _ _ Hfin) as [Ha Hb].
    apply area_second_edge_zero; [now apply vsub_diag_zero | exact Ha].
  - unfold products_finite in Hfin.
    repeat (apply andb_prop in Hfin as [Hfin ?]).
    set (a := vsub v2 v1) in *.
    apply half_norm_zero; simpl;
      match goal with
      | |- is_zero_float (?p * ?q - ?q * ?p) = true =>
          rewrite (mul_comm q p), sub_diag_finite by assumption; reflexivity
      end.
Qed.

(** * Properties of the calculator *)

(** C1.  When every face of the list names three points of the mapping,
    [compute_weighted_centroid] returns what the two running sums of the
    specification give: the sum of [area_i * centroid_i] and the sum of
    [area_i], both taken in the order of the face list, with [area_i] the
    area of the face (half the norm of the cross product of its two edge
    vectors, [area_of]) and [centroid_i] the plain average of its three
    vertices; and when the total area is positive the result is the first
    sum divided by the second, component by component. *)
Theorem weighted_centroid_is_weighted_sum_over_area
    (points : gmap Z vec3) (faces : list (list Z)) (ts : list triangle) :
  Forall2 (fun face t => vertices_of points face = Some t) faces ts ->
  compute_weighted_centroid points faces =
    Ok (if (0 <? area_sum ts)%float
        then Some (vdiv (weighted_sum ts) (area_sum ts))
        else None)
  /\ ((0 <? area_sum ts)%float = true ->
      compute_weighted_centroid points faces =
        Ok (Some (Vec3 (vx (weighted_sum ts) / area_sum ts)%float
                       (vy (weighted_sum ts) / area_sum ts)%float
                       (vz (weighted_sum ts) / area_sum ts)%float))).
Proof.
  intros H. rewrite (compute_weighted_centroid_sums _ _ _ H).
  split; [reflexivity|]. intros ->. reflexivity.
Qed.

Lemma unequal_faces_resolve :
  Forall2 (fun face t => vertices_of unequal_points face = Some t)
    unequal_faces unequal_triangles.
Proof. repeat constructor. Defined.

(** Two faces of areas 4.5 and 9 with the vertex averages [(1, 1, 0)] and
    [(0, -2, 1)]: the centroid is [(4.5, -13.5, 9) / 13.5], not the middle
    [(0.5, -0.5, 0.5)] of the two averages. *)
Lemma unequal_faces_centroid :
  map area_of unequal_triangles = [4.5; 9]%float
  /\ map average_of unequal_triangles = [Vec3 1 1 0; Vec3 0 (-2) 1]
  /\ compute_weighted_centroid unequal_points unequal_faces
     = Ok (Some (Vec3 0x1.5555555555555p-2 (-1) 0x1.5555555555555p-1)).
Proof.
  split; [reflexivity|]. split; [reflexivity|].
  rewrite (proj1 (weighted_centroid_is_weighted_sum_over_area
                    unequal_points unequal_faces unequal_triangles
                    unequal_faces_resolve)).
  reflexivity.
Defined.

(** C2, as the code has it.  [compute_triangle_area] is half the square
    root of the sum of the squared components of the cross product of
    [v2 - v1] and [v3 - v1]: the differences, the products, the square root
    and the halving are each rounded to a double, and the sum of the three
    squares is taken up from zero by fused multiply-adds, one rounding for
    each square added.  It is exactly zero for a triangle with a repeated
    vertex whenever the six products the cross product is made of are
    numbers. *)
Theorem triangle_area_half_cross_norm (v1 v2 v3 : vec3) :
  compute_triangle_area v1 v2 v3 =
    (let ax := vx v2 - vx v1 in let ay := vy v2 - vy v1 in let az := vz v2 - vz v1 in
     let bx := vx v3 - vx v1 in let by_ := vy v3 - vy v1 in let bz := vz v3 - vz v1 in
     let cx := ay * bz - az * by_ in
     let cy := az * bx - ax * bz in
     let cz := ax * by_ - ay * bx in
     0.5 * sqrt (fma cz cz (fma cy cy (fma cx cx 0))))%float
  /\ (duplicate v1 v2 v3 ->
      products_finite (vsub v2 v1) (vsub v3 v1) = true ->
      compute_triangle_area v1 v2 v3 = 0%float).
Proof.
  split; [reflexivity | apply area_duplicate].
Qed.

Lemma triangle_area_repeated_vertex :
  compute_triangle_area (Vec3 1 2 3) (Vec3 1 2 3) (Vec3 4 0.5 6) = 0%float.
Proof.
  apply (proj2 (triangle_area_half_cross_norm (Vec3 1 2 3) (Vec3 1 2 3) (Vec3 4 0.5 6))).
  - left. reflexivity.
  - vm_compute. reflexivity.
Defined.

(** C2, as the specification states it, fails: three points that lie
    exactly on one line, with a computed area of 4; and a triangle with a
    repeated vertex whose computed area is not a number. *)
Lemma collinear_triangle_area_not_zero :
  collinear line_p1 line_p2 line_p3 = true
  /\ compute_triangle_area line_p1 line_p2 line_p3 = 4%float
  /\ compute_triangle_area zeros3 (Vec3 0x1p600 0x1p600 0) (Vec3 0x1p600 0x1p600 0) = nan.
Proof. repeat split; vm_compute; reflexivity. Qed.

Lemma repeated_vertex_area t : repeated_vertex t -> area_of t = 0%float.
Proof.
  destruct t as [[v1 v2] v3]. intros [Hd Hf]. now apply (area_duplicate v1 v2 v3).
Qed.

(** C3, as the code has it.  When the faces all resolve and the
    accumulated area is zero, [compute_weighted_centroid] returns [None],
    which is not the origin.  The accumulated area is zero for the empty
    face list and for a face list in which every face has a repeated
    vertex, the products of its cross product being numbers. *)
Theorem zero_total_area_returns_None
    (points : gmap Z vec3) (faces : list (list Z)) (ts : list triangle) :
  Forall2 (fun face t => vertices_of points face = Some t) faces ts ->
  (area_sum ts =? 0)%float = true \/ Forall repeated_vertex ts ->
  (area_sum ts =? 0)%float = true
  /\ compute_weighted_centroid points faces = Ok None
  /\ compute_weighted_centroid points faces <> Ok (Some zeros3)
  /\ compute_weighted_centroid points [] = Ok None.
Proof.
  intros H Hzero.
  assert (Hsum : is_zero_float (area_sum ts) = true).
  { destruct Hzero as [Hz|Hall].
    - now apply eqb_0_is_zero.
    - apply area_sum_zero; [|apply is_zero_0].
      eapply Forall_impl; [exact Hall|]. intros t Ht.
      now rewrite (repeated_vertex_area t Ht). }
  split; [now apply eqb_0_is_zero|].
  rewrite (compute_weighted_centroid_sums _ _ _ H).
  rewrite (is_zero_not_positive _ Hsum).
  split; [reflexivity|]. split; [discriminate | reflexivity].
Qed.

Lemma degenerate_faces_return_None :
  (area_sum [(Vec3 0 0 0, Vec3 0 0 0, Vec3 1 0 0);
             (Vec3 1 0 0, Vec3 0 0 0, Vec3 1 0 0)] =? 0)%float = true
  /\ compute_weighted_centroid two_points [[1; 1; 2]; [2; 1; 2]] = Ok None
  /\ compute_weighted_centroid two_points [[1; 1; 2]; [2; 1; 2]] <> Ok (Some zeros3)
  /\ compute_weighted_centroid two_points [] = Ok None.
Proof.
  apply (zero_total_area_returns_None two_points [[1; 1; 2]; [2; 1; 2]]
           [(Vec3 0 0 0, Vec3 0 0 0, Vec3 1 0 0); (Vec3 1 0 0, Vec3 0 0 0, Vec3 1 0 0)]).
  - repeat constructor.
  - right.
    constructor; [split; [left; reflexivity | reflexivity]|].
    constructor; [split; [right; left; reflexivity | reflexivity]|].
    constructor.
Defined.

(** C3, as the specification states it, fails: a face list whose faces
    are all degenerate, their three points lying exactly on one line (two
    of them being the same point in the last face), for which a point is
    returned.  The computed area of the first face is 4. *)
Lemma collinear_faces_get_a_centroid :
  Forall (fun t => let '(v1, v2, v3) := t in collinear v1 v2 v3 = true) line_triangles
  /\ Forall2 (fun face t => vertices_of line_points face = Some t) line_faces line_triangles
  /\ map area_of line_triangles = [4; 0; 0]%float
  /\ compute_weighted_centroid line_points line_faces
     = Ok (Some (Vec3 6004799503160664 18014398509481992 0)).
Proof.
  split; [repeat constructor|]. split; [repeat constructor|].
  split; vm_compute; reflexivity.
Qed.

(** C4.  In a list of triplets where some face names an ID that is not in
    the mapping, [compute_weighted_centroid] raises the error that carries
    the first such face, and returns no centroid. *)
Theorem dangling_face_raises
    (points : gmap Z vec3) (faces : list (list Z)) :
  Forall (fun face => length face = 3%nat) faces ->
  Exists (dangling points) faces ->
  exists pre face post,
    faces = pre ++ face :: post /\
    Forall (fun f => ~ dangling points f) pre /\
    dangling points face /\
    compute_weighted_centroid points faces = Raise (DanglingReference face).
Proof.
  intros Hlen Hex.
  destruct (centroid_loop_dangling points faces Hlen Hex)
    as (pre & face & post & Heq & Hpre & Hface & Hloop).
  exists pre, face, post. repeat split; auto.
  unfold compute_weighted_centroid. now rewrite Hloop.
Qed.

Lemma dangling_face_in_square :
  exists pre face post,
    [[1; 2; 3]; [1; 3; 5]; [7; 8; 9]] = pre ++ face :: post /\
    Forall (fun f => ~ dangling unit_square f) pre /\
    dangling unit_square face /\
    compute_weighted_centroid unit_square [[1; 2; 3]; [1; 3; 5]; [7; 8; 9]]
      = Raise (DanglingReference face).
Proof.
  apply (dangling_face_raises unit_square [[1; 2; 3]; [1; 3; 5]; [7; 8; 9]]).
  - repeat constructor.
  - apply Exists_cons_tl, Exists_cons_hd. exists 5. split; [simpl; auto | reflexivity].
Defined.

(** * The Extractor *)

Section ExtractorFacts.
Variable py_int : string -> option Z.
Variable py_float : string -> option float.

Lemma find_all_app tag (d1 d2 : document) :
  find_all tag (d1 ++ d2) = find_all tag d1 ++ find_all tag d2.
Proof. apply List.filter_app. Qed.

Lemma find_all_cons_other tag (e : element) (d : document) :
  name e <> tag -> find_all tag (e :: d) = find_all tag d.
Proof.
  intros H. unfold find_all. simpl.
  destruct (String.eqb_spec (name e) tag); [contradiction | reflexivity].
Qed.

Lemma find_all_cons_same (e : element) (d : document) :
  find_all (name e) (e :: d) = e :: find_all (name e) d.
Proof. unfold find_all. simpl. now rewrite String.eqb_refl. Qed.

(** *** Lists of literals *)

Lemma int_list_raise pre tok post :
  Forall (fun t => is_Some (py_int t)) pre -> py_int tok = None ->
  int_list py_int (pre ++ tok :: post) = Raise (LiteralError tok).
Proof.
  induction 1 as [|t pre [n Ht] _ IH]; intros Htok; simpl.
  - now rewrite Htok.
  - rewrite Ht, IH by assumption. reflexivity.
Qed.

Lemma int_list_cases tokens :
  (exists l, int_list py_int tokens = Ok l)
  \/ (exists pre tok post, tokens = pre ++ tok :: post
        /\ Forall (fun t => is_Some (py_int t)) pre /\ py_int tok = None).
Proof.
  induction tokens as [|t tokens IH]; simpl.
  - left. eauto.
  - destruct (py_int t) as [n|] eqn:Ht.
    + destruct IH as [[l ->]|(pre & tok & post & -> & Hpre & Htok)].
      * left. simpl. eauto.
      * right. exists (t :: pre), tok, post.
        split; [reflexivity|]. split; [|assumption].
        constructor; [rewrite Ht; eauto | assumption].
    + right. exists [], t, tokens. repeat split; auto.
Qed.


Lemma float_list_cases tokens :
  (exists l, float_list py_float tokens = Ok l)
  \/ (exists tok, float_list py_float tokens = Raise (LiteralError tok)
                  /\ In tok tokens /\ py_float tok = None).
Proof.
  induction tokens as [|t tokens IH]; simpl.
  - left. eauto.
  - destruct (py_float t) as [v|] eqn:Ht.
    + destruct IH as [[l ->]|(tok & -> & Hin & Htok)].
      * left. simpl. eauto.
      * right. exists tok. simpl. auto.
    + right. exists t. auto.
Qed.

(** *** The loop over the faces *)

Lemma faces_loop_keeps_triples fs ls :
  Forall2 (face_tokens py_int) fs ls ->
  forall acc,
    faces_loop py_int fs acc
    = Ok (acc ++ List.filter (fun l => Nat.eqb (length l) 3) ls).
Proof.
  induction 1 as [|face l fs ls Hface _ IH]; intros acc; simpl.
  - now rewrite app_nil_r.
  - unfold face_tokens in Hface. rewrite Hface. simpl. rewrite IH.
    destruct (Nat.eqb (length l) 3); [now rewrite <- app_assoc | reflexivity].
Qed.


(** *** The loop over the points *)

Lemma point_body_ok p pid l points :
  has_id py_int p pid -> point_tokens py_float p l ->
  point_body py_int py_float p points
  = Ok (match l with
        | [x; y; z] => <[pid := Vec3 x y z]> points
        | _ => points
        end).
Proof.
  intros (v & Hv & Hpid) Hl. unfold point_body, id_of.
  rewrite Hv. simpl. rewrite Hpid. simpl.
  unfold point_tokens in Hl. rewrite Hl. reflexivity.
Qed.

Lemma point_cases p :
  (exists pid l, has_id py_int p pid /\ point_tokens py_float p l)
  \/ invalid_point_code py_int py_float p.
Proof.
  unfold invalid_point_code, has_id, point_tokens.
  destruct (get_attr "id" (attrs p)) as [v|] eqn:Hv.
  - destruct (py_int v) as [pid|] eqn:Hpid.
    + destruct (float_list_cases (split_ws (text p)))
        as [[l Hl]|(tok & Hr & _ & _)].
      * left. exists pid, l. eauto.
      * right. right. intros l Hl. congruence.
    + right. left. intros pid (v' & Hv' & Hpid'). congruence.
  - right. left. intros pid (v' & Hv' & _). congruence.
Qed.

Lemma point_body_raise p points :
  invalid_point_code py_int py_float p ->
  exists e, point_body py_int py_float p points = Raise e.
Proof.
  unfold invalid_point_code, point_body, id_of, has_id, point_tokens.
  intros H.
  destruct (get_attr "id" (attrs p)) as [v|] eqn:Hv; simpl; [|eauto].
  destruct (py_int v) as [pid|] eqn:Hpid; simpl; [|eauto].
  destruct (float_list py_float (split_ws (text p))) as [l|e] eqn:Hl; simpl; [|eauto].
  destruct H as [H|H]; exfalso; [apply (H pid) | apply (H l)]; eauto.
Qed.

Lemma valid_not_invalid p pid l :
  has_id py_int p pid -> point_tokens py_float p l ->
  ~ invalid_point_code py_int py_float p.
Proof. intros Hid Hl [H|H]; [apply (H pid) | apply (H l)]; assumption. Qed.

(** The loop succeeds on elements the [try] accepts. *)
Lemma points_loop_ok ps :
  Forall (fun p => ~ invalid_point_code py_int py_float p) ps ->
  forall points, exists points', points_loop py_int py_float ps points = Ok points'.
Proof.
  induction 1 as [|p ps Hp _ IH]; intros points; simpl.
  - eauto.
  - destruct (point_cases p) as [(pid & l & Hid & Hl)|Hbad]; [|contradiction].
    rewrite (point_body_ok _ _ _ _ Hid Hl). apply IH.
Qed.

(** It raises on the first element the [try] rejects. *)
Lemma points_loop_raise pre p post :
  Forall (fun q => ~ invalid_point_code py_int py_float q) pre ->
  invalid_point_code py_int py_float p ->
  forall points,
    points_loop py_int py_float (pre ++ p :: post) points = Raise (InvalidPoint p).
Proof.
  induction 1 as [|q pre Hq _ IH]; intros Hp points; simpl.
  - destruct (point_body_raise p points Hp) as [e ->]. reflexivity.
  - destruct (point_cases q) as [(pid & l & Hid & Hl)|Hbad]; [|contradiction].
    rewrite (point_body_ok _ _ _ _ Hid Hl). now apply IH.
Qed.

Lemma first_invalid ps :
  Exists (invalid_point_code py_int py_float) ps ->
  exists pre p post, ps = pre ++ p :: post
    /\ Forall (fun q => ~ invalid_point_code py_int py_float q) pre
    /\ invalid_point_code py_int py_float p.
Proof.
  induction ps as [|q ps IH]; intros Hex; [inversion Hex|].
  destruct (point_cases q) as [(pid & l & Hid & Hl)|Hbad].
  - assert (Hq := valid_not_invalid _ _ _ Hid Hl).
    inversion Hex as [? ? Hq'|? ? Hex']; subst; [contradiction|].
    destruct (IH Hex') as (pre & p & post & -> & Hpre & Hp).
    exists (q :: pre), p, post. auto.
  - exists [], q, ps. auto.
Qed.

Lemma all_valid_or_some_invalid ps :
  Forall (fun q => ~ invalid_point_code py_int py_float q) ps
  \/ Exists (invalid_point_code py_int py_float) ps.
Proof.
  induction ps as [|q ps [IH|IH]]; auto.
  destruct (point_cases q) as [(pid & l & Hid & Hl)|Hbad]; auto.
  left. constructor; [eapply valid_not_invalid; eauto | assumption].
Qed.

Lemma points_loop_app ps1 ps2 points :
  points_loop py_int py_float (ps1 ++ ps2) points
  = (m <- points_loop py_int py_float ps1 points ;;
     points_loop py_int py_float ps2 m).
Proof.
  revert points. induction ps1 as [|p ps1 IH]; intros points; simpl.
  - reflexivity.
  - destruct (point_body py_int py_float p points); [apply IH | reflexivity].
Qed.

(** An entry stays as it is while no later element stores under its ID. *)
Lemma points_loop_preserves ps pid v :
  Forall (fun q => forall v', ~ stores py_int py_float q pid v') ps ->
  forall points points',
    points !! pid = Some v ->
    points_loop py_int py_float ps points = Ok points' ->
    points' !! pid = Some v.
Proof.
  induction 1 as [|q ps Hq _ IH]; intros points points' Hlook; simpl.
  - now intros [= <-].
  - destruct (point_cases q) as [(qid & l & Hid & Hl)|Hbad].
    + rewrite (point_body_ok _ _ _ _ Hid Hl). apply IH.
      destruct l as [|x [|y [|z [|? ?]]]]; try assumption.
      destruct (Z.eq_dec qid pid) as [->|Hne].
      * exfalso. apply (Hq (Vec3 x y z)). split; assumption.
      * now rewrite lookup_insert_ne.
    + destruct (point_body_raise q points Hbad) as [e ->]. discriminate.
Qed.

End ExtractorFacts.

Section ExtractorProperties.
Variable py_int : string -> option Z.
Variable py_float : string -> option float.

Lemma Forall_exists_Forall2 {A B : Type} (R : A -> B -> Prop) (l : list A) :
  Forall (fun a => exists b, R a b) l -> exists k, Forall2 R l k.
Proof.
  induction 1 as [|a l [b Hb] _ [k IH]].
  - exists []. constructor.
  - exists (b :: k). now constructor.
Qed.

Lemma int_list_ok_tokens tokens l :
  int_list py_int tokens = Ok l -> Forall (fun t => py_int t <> None) tokens.
Proof.
  revert l. induction tokens as [|t tokens IH]; intros l; simpl.
  - constructor.
  - destruct (py_int t) as [n|] eqn:Ht; [|discriminate].
    destruct (int_list py_int tokens) as [l'|] eqn:Hl; [|discriminate].
    intros _. constructor; [simpl; congruence | eapply IH; reflexivity].
Qed.

Lemma parse_with_faces doc ls :
  Forall2 (face_tokens py_int) (find_all "F" doc) ls ->
  parse_tin_geometry py_int py_float doc
  = (points <- points_loop py_int py_float (find_all "P" doc) ∅ ;;
     Ok (points, List.filter (fun l => Nat.eqb (length l) 3) ls)).
Proof.
  intros H. unfold parse_tin_geometry.
  now rewrite (faces_loop_keeps_triples py_int _ _ H).
Qed.

(** The first face element with a token that is not an integer stops
    the loop. *)
Lemma faces_loop_bad_token fs :
  Exists (fun face => Exists (fun t => py_int t = None) (split_ws (text face))) fs ->
  exists tok, py_int tok = None
    /\ forall acc, faces_loop py_int fs acc = Raise (LiteralError tok).
Proof.
  induction fs as [|face fs IH]; intros Hex; [inversion Hex|].
  destruct (int_list_cases py_int (split_ws (text face)))
    as [[l Hl]|(pre & tok & post & Heq & Hpre & Htok)].
  - assert (Hex' : Exists (fun face => Exists (fun t => py_int t = None)
                                         (split_ws (text face))) fs).
    { inversion Hex as [? ? Hbad|]; subst; [|assumption].
      exfalso. apply int_list_ok_tokens in Hl.
      apply Exists_exists in Hbad as (t & Hin & Ht).
      rewrite Forall_forall in Hl. now apply (Hl t Hin). }
    destruct (IH Hex') as (tok & Htok & Hloop).
    exists tok. split; [assumption|]. intros acc. simpl.
    rewrite Hl. simpl. apply Hloop.
  - exists tok. split; [assumption|]. intros acc. simpl.
    rewrite Heq, (int_list_raise py_int _ _ _ Hpre Htok). reflexivity.
Qed.

(** C5, as the code has it.  When the face elements all convert, the
    Extractor raises [InvalidPoint] exactly when some [P] element has no
    integer [id] or has a token that is not a float, and the error
    carries the first such element.  (A [P] element whose tokens are
    floats, but not three of them, is skipped without an error.) *)
Theorem invalid_point_iff_bad_id_or_token (doc : document) :
  Forall (fun f => exists l, face_tokens py_int f l) (find_all "F" doc) ->
  ((exists e, parse_tin_geometry py_int py_float doc = Raise (InvalidPoint e))
   <-> Exists (invalid_point_code py_int py_float) (find_all "P" doc))
  /\ (forall e, parse_tin_geometry py_int py_float doc = Raise (InvalidPoint e) ->
      exists pre post, find_all "P" doc = pre ++ e :: post
        /\ Forall (fun q => ~ invalid_point_code py_int py_float q) pre
        /\ invalid_point_code py_int py_float e).
Proof.
  intros HF. apply Forall_exists_Forall2 in HF as [ls HF].
  rewrite (parse_with_faces _ _ HF).
  destruct (all_valid_or_some_invalid py_int py_float (find_all "P" doc))
    as [Hok|Hbad].
  - destruct (points_loop_ok py_int py_float _ Hok ∅) as [points ->]. simpl.
    split; [split|]; try (intros [e He]; discriminate); try discriminate.
    intros Hex. exfalso. apply Exists_exists in Hex as (p & Hin & Hp).
    rewrite Forall_forall in Hok. exact (Hok p Hin Hp).
  - destruct (first_invalid py_int py_float _ Hbad)
      as (pre & p & post & Heq & Hpre & Hp).
    assert (Hraise : points_loop py_int py_float (find_all "P" doc) ∅
                     = Raise (InvalidPoint p)).
    { rewrite Heq. now apply points_loop_raise. }
    rewrite Hraise. simpl.
    split; [split; eauto|].
    intros e [= <-]. eauto.
Qed.

(** C8.  When the face elements all convert, the face list is the list
    of their token lists that have exactly three entries, in document
    order; and a face element with another number of tokens can be taken
    out of the document without changing what the Extractor returns or
    the centroid computed from it. *)
Theorem face_kept_iff_three_tokens (doc : document) (ls : list (list Z)) :
  Forall2 (face_tokens py_int) (find_all "F" doc) ls ->
  parse_tin_geometry py_int py_float doc
  = (points <- points_loop py_int py_float (find_all "P" doc) ∅ ;;
     Ok (points, List.filter (fun l => Nat.eqb (length l) 3) ls))
  /\ (forall l, In l (List.filter (fun l => Nat.eqb (length l) 3) ls)
                <-> In l ls /\ length l = 3%nat)
  /\ (forall doc1 face doc2 l,
        doc = doc1 ++ face :: doc2 -> name face = "F"%string ->
        face_tokens py_int face l -> length l <> 3%nat ->
        parse_tin_geometry py_int py_float (doc1 ++ doc2)
          = parse_tin_geometry py_int py_float doc
        /\ centroid_of_document py_int py_float (doc1 ++ doc2)
          = centroid_of_document py_int py_float doc).
Proof.
  intros HF. split; [now apply parse_with_faces|]. split.
  - intros l. rewrite List.filter_In, Nat.eqb_eq. reflexivity.
  - intros doc1 face doc2 l -> Hname Hl Hlen.
    assert (Hparse : parse_tin_geometry py_int py_float (doc1 ++ doc2)
                     = parse_tin_geometry py_int py_float (doc1 ++ face :: doc2)).
    { rewrite find_all_app in HF. rewrite <- Hname in HF at 2.
      rewrite find_all_cons_same, Hname in HF.
      apply Forall2_app_inv_l in HF as (ls1 & ls' & H1 & H2 & ->).
      inversion H2 as [|? l' ? ls2 Hl' H2']; subst.
      assert (l' = l) as -> by (unfold face_tokens in *; congruence).
      rewrite (parse_with_faces (doc1 ++ doc2) (ls1 ++ ls2)).
      2:{ rewrite find_all_app. now apply Forall2_app. }
      rewrite (parse_with_faces (doc1 ++ face :: doc2) (ls1 ++ l :: ls2)).
      2:{ rewrite find_all_app. rewrite <- Hname at 2.
          rewrite find_all_cons_same, Hname.
          apply Forall2_app; [assumption | now constructor]. }
      rewrite !find_all_app, (find_all_cons_other "P" face).
      2:{ rewrite Hname. discriminate. }
      rewrite !List.filter_app. simpl.
      destruct (Nat.eqb_spec (length l) 3); [contradiction | reflexivity]. }
    split; [exact Hparse|]. unfold centroid_of_document. now rewrite Hparse.
Qed.

(** C9.  In a document whose elements all convert, a [P] element that
    stores coordinates under an ID, with no later [P] element storing
    under the same ID, is the one the mapping holds for that ID: the
    Extractor returns without an error and earlier entries for the ID
    are overwritten. *)
Theorem duplicate_point_id_last_wins
    (doc : document) (ps1 : list element) (p : element) (ps2 : list element)
    (pid : Z) (v : vec3) :
  Forall (fun f => exists l, face_tokens py_int f l) (find_all "F" doc) ->
  Forall (fun q => ~ invalid_point_code py_int py_float q) (find_all "P" doc) ->
  find_all "P" doc = ps1 ++ p :: ps2 ->
  stores py_int py_float p pid v ->
  Forall (fun q => forall v', ~ stores py_int py_float q pid v') ps2 ->
  exists points faces,
    parse_tin_geometry py_int py_float doc = Ok (points, faces)
    /\ points !! pid = Some v.
Proof.
  intros HF HP Heq [Hid Htok] Hlater.
  apply Forall_exists_Forall2 in HF as [ls HF].
  rewrite (parse_with_faces _ _ HF).
  destruct (points_loop_ok py_int py_float _ HP ∅) as [points Hloop].
  rewrite Hloop. simpl. exists points, (List.filter (fun l => Nat.eqb (length l) 3) ls).
  split; [reflexivity|].
  rewrite Heq, points_loop_app in Hloop.
  destruct (points_loop py_int py_float ps1 ∅) as [m|] eqn:H1; [|discriminate].
  simpl in Hloop. rewrite (point_body_ok py_int py_float _ _ _ _ Hid Htok) in Hloop.
  eapply (points_loop_preserves py_int py_float); [exact Hlater | | exact Hloop].
  destruct v as [x y z]. simpl. apply lookup_insert_eq.
Qed.

(** C10.  When some face element has a token that is not an integer, the
    Extractor raises the [ValueError] of the conversion itself, on such
    a token: it returns nothing, and the error is neither [InvalidPoint]
    nor [DanglingReference]. *)
Theorem face_literal_error_escapes (doc : document) :
  Exists (fun face => Exists (fun t => py_int t = None) (split_ws (text face)))
    (find_all "F" doc) ->
  exists tok, py_int tok = None
    /\ parse_tin_geometry py_int py_float doc = Raise (LiteralError tok)
    /\ (forall pf, parse_tin_geometry py_int py_float doc <> Ok pf)
    /\ (forall e, parse_tin_geometry py_int py_float doc <> Raise (InvalidPoint e))
    /\ (forall f, parse_tin_geometry py_int py_float doc <> Raise (DanglingReference f)).
Proof.
  intros Hex. destruct (faces_loop_bad_token _ Hex) as (tok & Htok & Hloop).
  exists tok. unfold parse_tin_geometry. rewrite Hloop. simpl.
  repeat split; try assumption; intros; discriminate.
Qed.

End ExtractorProperties.

(** ** The Extractor on the example documents *)

Lemma missing_id_is_invalid :
  ((exists e, parse_tin_geometry int_literal float_literal missing_id
              = Raise (InvalidPoint e))
   <-> Exists (invalid_point_code int_literal float_literal) (find_all "P" missing_id))
  /\ (forall e, parse_tin_geometry int_literal float_literal missing_id
                = Raise (InvalidPoint e) ->
      exists pre post, find_all "P" missing_id = pre ++ e :: post
        /\ Forall (fun q => ~ invalid_point_code int_literal float_literal q) pre
        /\ invalid_point_code int_literal float_literal e).
Proof.
  apply (invalid_point_iff_bad_id_or_token int_literal float_literal missing_id).
  simpl. repeat constructor. eexists. reflexivity.
Defined.

(** C5, as the specification states it, fails: a [P] element with an
    integer [id] and two coordinates is invalid for the specification, and
    the Extractor returns, with an empty mapping. *)
Lemma two_coordinates_not_rejected :
  Exists (invalid_point_spec int_literal float_literal) (find_all "P" two_coordinates)
  /\ parse_tin_geometry int_literal float_literal two_coordinates = Ok (∅, []).
Proof.
  split; [|reflexivity].
  simpl. apply Exists_cons_hd. right.
  intros (x & y & z & H). vm_compute in H. discriminate H.
Qed.

Lemma small_tin_faces :
  Forall2 (face_tokens int_literal) (find_all "F" small_tin)
    [[1; 2; 3]; [1; 2; 3; 4]; [1; 3; 4]].
Proof. simpl. repeat constructor. Defined.

Lemma small_tin_keeps_triples :
  parse_tin_geometry int_literal float_literal small_tin
  = (points <- points_loop int_literal float_literal (find_all "P" small_tin) ∅ ;;
     Ok (points, [[1; 2; 3]; [1; 3; 4]])).
Proof.
  exact (proj1 (face_kept_iff_three_tokens int_literal float_literal small_tin
                  _ small_tin_faces)).
Defined.

Lemma small_tin_points_valid :
  Forall (fun q => ~ invalid_point_code int_literal float_literal q)
    (find_all "P" small_tin).
Proof.
  simpl. repeat constructor;
    (eapply valid_not_invalid; [eexists; split; reflexivity | reflexivity]).
Defined.

Lemma small_tin_last_point_wins :
  exists points faces,
    parse_tin_geometry int_literal float_literal small_tin = Ok (points, faces)
    /\ points !! 3 = Some (Vec3 1 1 0).
Proof.
  apply (duplicate_point_id_last_wins int_literal float_literal small_tin
           [Element "P" [("id", "1")] ["0 0 0"]; Element "P" [("id", "2")] ["1 0 0"];
            Element "P" [("id", "3")] ["5 5 5"]]%string
           (Element "P" [("id", "3")] ["1 1 0"])%string
           [Element "P" [("id", "4")] ["0 1 0"]]%string).
  - simpl. repeat constructor; eexists; reflexivity.
  - exact small_tin_points_valid.
  - reflexivity.
  - split; [eexists; split; reflexivity | reflexivity].
  - repeat constructor. intros v' [(s & Hs & Hid) _]. simpl in Hs.
    injection Hs as <-. vm_compute in Hid. discriminate Hid.
Defined.

Lemma bad_face_raises :
  exists tok, int_literal tok = None
    /\ parse_tin_geometry int_literal float_literal bad_face = Raise (LiteralError tok)
    /\ (forall pf, parse_tin_geometry int_literal float_literal bad_face <> Ok pf)
    /\ (forall e, parse_tin_geometry int_literal float_literal bad_face
                  <> Raise (InvalidPoint e))
    /\ (forall f, parse_tin_geometry int_literal float_literal bad_face
                  <> Raise (DanglingReference f)).
Proof.
  apply (face_literal_error_escapes int_literal float_literal bad_face).
  simpl. apply Exists_cons_tl, Exists_cons_hd.
  apply Exists_cons_tl, Exists_cons_hd. reflexivity.
Defined.

(** * The Scaler *)

Section ScalerFacts.
Variable py_int : string -> option Z.
Variable py_float : string -> option float.
Variable float_str : float -> string.
Variable scale_factor : float.

Lemma scale_face_ok face :
  (exists s, scale_face py_int face = Ok s)
  <-> (exists l, int_list py_int (split_space face) = Ok l).
Proof.
  unfold scale_face.
  destruct (int_list py_int (split_space face)) as [l|e]; simpl;
    split; intros [? ?]; try discriminate; eauto.
Qed.

Lemma scale_point_ok point :
  (exists s, scale_point py_float float_str scale_factor point = Ok s)
  <-> (exists l, float_list py_float (split_space point) = Ok l /\ (3 <= length l)%nat).
Proof.
  unfold scale_point.
  destruct (float_list py_float (split_space point)) as [l|e]; simpl.
  - destruct l as [|x [|y [|z rest]]]; simpl; split;
      try (intros [? ?]; discriminate);
      try (intros (l & [= <-] & Hlen); simpl in Hlen; lia).
    + intros _. eexists. split; [reflexivity | simpl; lia].
    + intros _. eauto.
  - split; [intros [? ?]; discriminate | intros (l & ? & _); discriminate].
Qed.

Lemma int_list_malformed tokens e :
  int_list py_int tokens = Raise e -> malformed_element e.
Proof.
  induction tokens as [|t tokens IH]; simpl; [discriminate|].
  destruct (py_int t); [|intros [= <-]; right; eauto].
  destruct (int_list py_int tokens); simpl; [discriminate|].
  intros [= <-]. now apply IH.
Qed.

Lemma float_list_malformed tokens e :
  float_list py_float tokens = Raise e -> malformed_element e.
Proof.
  induction tokens as [|t tokens IH]; simpl; [discriminate|].
  destruct (py_float t); [|intros [= <-]; right; eauto].
  destruct (float_list py_float tokens); simpl; [discriminate|].
  intros [= <-]. now apply IH.
Qed.

Lemma scale_face_malformed face e :
  scale_face py_int face = Raise e -> malformed_element e.
Proof.
  unfold scale_face.
  destruct (int_list py_int (split_space face)) eqn:H; simpl; [discriminate|].
  intros [= <-]. eapply int_list_malformed; eassumption.
Qed.

Lemma scale_point_malformed point e :
  scale_point py_float float_str scale_factor point = Raise e -> malformed_element e.
Proof.
  unfold scale_point.
  destruct (float_list py_float (split_space point)) as [l|e'] eqn:H; simpl.
  - destruct l as [|x [|y [|z rest]]]; try discriminate;
      intros [= <-]; now left.
  - intros [= <-]. eapply float_list_malformed; eassumption.
Qed.

(** *** One pass over the elements of a tag *)

Lemma rewrite_strings_ok f l :
  (exists l', rewrite_strings f l = Ok l')
  <-> Forall (fun s => exists s', f s = Ok s') l.
Proof.
  induction l as [|s l IH]; simpl.
  - split; [constructor | eauto].
  - destruct (f s) as [s'|e] eqn:Hs; simpl.
    + destruct (rewrite_strings f l) as [l'|e] eqn:Hl; simpl.
      * split; [|eauto]. intros _. constructor; [eauto | apply IH; eauto].
      * split; [intros [? ?]; discriminate|].
        intros H. inversion H as [|? ? _ Hl']; subst.
        apply IH in Hl' as [? ?]. discriminate.
    + split; [intros [? ?]; discriminate|].
      intros H. inversion H as [|? ? [? ?] _]; subst. congruence.
Qed.

Lemma rewrite_strings_spec f l l' :
  rewrite_strings f l = Ok l' -> Forall2 (fun s s' => f s = Ok s') l l'.
Proof.
  revert l'. induction l as [|s l IH]; intros l'; simpl.
  - intros [= <-]. constructor.
  - destruct (f s) as [s'|] eqn:Hs; simpl; [|discriminate].
    destruct (rewrite_strings f l) as [k|]; simpl; [|discriminate].
    intros [= <-]. constructor; auto.
Qed.

Lemma rewrite_strings_raise f l e :
  rewrite_strings f l = Raise e -> exists s, In s l /\ f s = Raise e.
Proof.
  induction l as [|s l IH]; simpl; [discriminate|].
  destruct (f s) as [s'|e'] eqn:Hs; simpl.
  - destruct (rewrite_strings f l) as [k|e'']; simpl; [discriminate|].
    intros [= <-]. destruct IH as (s0 & Hin & Hs0); eauto.
  - intros [= <-]. eauto.
Qed.

Lemma rewrite_all_ok tag f doc :
  (exists doc', rewrite_all tag f doc = Ok doc')
  <-> Forall (fun e => Forall (fun s => exists s', f s = Ok s') (contents e))
        (find_all tag doc).
Proof.
  induction doc as [|e doc IH]; simpl.
  - split; [constructor | eauto].
  - unfold find_all in *. simpl.
    destruct (String.eqb (name e) tag).
    + destruct (rewrite_strings f (contents e)) as [c|err] eqn:Hc; simpl.
      * assert (He : Forall (fun s => exists s', f s = Ok s') (contents e))
          by (apply rewrite_strings_ok; eauto).
        destruct (rewrite_all tag f doc) as [doc'|err]; simpl.
        -- split; [|eauto]. intros _. constructor; [exact He | apply IH; eauto].
        -- split; [intros [? ?]; discriminate|].
           intros H. inversion H as [|? ? _ H']; subst.
           apply IH in H' as [? ?]. discriminate.
      * split; [intros [? ?]; discriminate|].
        intros H. inversion H as [|? ? H' _]; subst.
        apply rewrite_strings_ok in H' as [? ?]. congruence.
    + simpl. destruct (rewrite_all tag f doc) as [doc'|err]; simpl.
      * split; [|eauto]. intros _. apply IH. eauto.
      * split; [intros [? ?]; discriminate|].
        intros H. apply IH in H as [? ?]. discriminate.
Qed.

Lemma rewrite_all_spec tag f doc doc' :
  rewrite_all tag f doc = Ok doc' ->
  Forall2 (fun e e' => if String.eqb (name e) tag then rewritten_as f e e' else e' = e)
    doc doc'.
Proof.
  revert doc'. induction doc as [|e doc IH]; intros doc'; simpl.
  - intros [= <-]. constructor.
  - destruct (String.eqb (name e) tag) eqn:Hname.
    + destruct (rewrite_strings f (contents e)) as [c|] eqn:Hc; simpl; [|discriminate].
      destruct (rewrite_all tag f doc) as [k|]; simpl; [|discriminate].
      intros [= <-]. constructor; [|auto].
      rewrite Hname. repeat split. simpl. now apply rewrite_strings_spec.
    + simpl. destruct (rewrite_all tag f doc) as [k|]; simpl; [|discriminate].
      intros [= <-]. constructor; [|auto]. now rewrite Hname.
Qed.

Lemma rewrite_all_raise tag f doc e :
  rewrite_all tag f doc = Raise e -> exists s, f s = Raise e.
Proof.
  induction doc as [|el doc IH]; simpl; [discriminate|].
  destruct (String.eqb (name el) tag).
  - destruct (rewrite_strings f (contents el)) as [c|e'] eqn:Hc; simpl.
    + destruct (rewrite_all tag f doc) as [k|e'']; simpl; [discriminate|].
      intros [= <-]. now apply IH.
    + intros [= <-]. apply rewrite_strings_raise in Hc as (s & _ & Hs). eauto.
  - simpl. destruct (rewrite_all tag f doc) as [k|e'']; simpl; [discriminate|].
    intros [= <-]. now apply IH.
Qed.

(** A pass leaves the elements of the other tags where they are. *)
Lemma rewrite_all_other tag tag' f doc doc' :
  tag' <> tag -> rewrite_all tag f doc = Ok doc' ->
  find_all tag' doc' = find_all tag' doc.
Proof.
  intros Hne H. apply rewrite_all_spec in H.
  induction H as [|e e' doc doc' He _ IH]; [reflexivity|].
  unfold find_all in *. simpl.
  destruct (String.eqb_spec (name e) tag) as [Heq|Hneq].
  - destruct He as (Hn & _ & _). rewrite Hn.
    destruct (String.eqb_spec (name e) tag'); [congruence | exact IH].
  - subst e'. now rewrite IH.
Qed.

End ScalerFacts.

Section ScalerProperties.
Variable py_int : string -> option Z.
Variable py_float : string -> option float.
Variable float_str : float -> string.
Variable scale_factor : float.

Lemma Forall_equiv {A : Type} (P Q : A -> Prop) (l : list A) :
  (forall a, P a <-> Q a) -> Forall P l <-> Forall Q l.
Proof.
  intros H. split; intros HF; eapply Forall_impl; try exact HF;
    intros a; apply H.
Qed.

Lemma face_pass_ok doc :
  (exists doc1, rewrite_all "F" (scale_face py_int) doc = Ok doc1)
  <-> Forall (face_pieces_ok py_int) (find_all "F" doc).
Proof.
  rewrite rewrite_all_ok. apply Forall_equiv. intros e.
  apply Forall_equiv. intros s. apply scale_face_ok.
Qed.

Lemma point_pass_ok doc :
  (exists doc', rewrite_all "P" (scale_point py_float float_str scale_factor) doc = Ok doc')
  <-> Forall (point_pieces_ok py_float) (find_all "P" doc).
Proof.
  rewrite rewrite_all_ok. apply Forall_equiv. intros e.
  apply Forall_equiv. intros s. apply scale_point_ok.
Qed.

Lemma two_passes doc doc1 doc' :
  Forall2 (fun e e' => if String.eqb (name e) "F"
                       then rewritten_as (scale_face py_int) e e' else e' = e)
    doc doc1 ->
  Forall2 (fun e e' => if String.eqb (name e) "P"
                       then rewritten_as (scale_point py_float float_str scale_factor) e e'
                       else e' = e)
    doc1 doc' ->
  Forall2 (scaled_element py_int py_float float_str scale_factor) doc doc'.
Proof.
  intros H1. revert doc'.
  induction H1 as [|e e1 doc doc1 He _ IH]; intros doc' H2.
  - inversion H2. constructor.
  - inversion H2 as [|? e' ? doc'' He' H2']; subst.
    constructor; [|now apply IH].
    unfold scaled_element.
    destruct (String.eqb_spec (name e) "F") as [HF|HF].
    + destruct He as (Hn & Ha & Hc).
      assert (HP : String.eqb (name e1) "P" = false).
      { rewrite Hn, HF. reflexivity. }
      rewrite HP in He'. subst e'. repeat split; assumption.
    + subst e1. exact He'.
Qed.

(** C6, as the code has it.  The Scaler returns the rewritten document
    exactly when every string of every [F] element, cut at single spaces,
    gives pieces that are all integers, and every string of every [P]
    element gives at least three pieces that are all floats; then every
    [F] and [P] element is rewritten and the others are untouched; and
    when it fails it is with the error of a conversion or of a missing
    index. *)
Theorem scale_document_succeeds_iff_pieces_convert (doc : document) :
  ((exists doc', scale_document py_int py_float float_str scale_factor doc = Ok doc')
   <-> Forall (face_pieces_ok py_int) (find_all "F" doc)
       /\ Forall (point_pieces_ok py_float) (find_all "P" doc))
  /\ (forall doc', scale_document py_int py_float float_str scale_factor doc = Ok doc' ->
      Forall2 (scaled_element py_int py_float float_str scale_factor) doc doc')
  /\ (forall e, scale_document py_int py_float float_str scale_factor doc = Raise e ->
      malformed_element e).
Proof.
  unfold scale_document.
  destruct (rewrite_all "F" (scale_face py_int) doc) as [doc1|e1] eqn:H1; simpl.
  - assert (HF : Forall (face_pieces_ok py_int) (find_all "F" doc))
      by (apply face_pass_ok; eauto).
    assert (HP : find_all "P" doc1 = find_all "P" doc).
    { eapply rewrite_all_other; [|exact H1]. discriminate. }
    split; [|split].
    + rewrite point_pass_ok, HP. tauto.
    + intros doc' H2. eapply two_passes; eapply rewrite_all_spec; eassumption.
    + intros e H2. apply rewrite_all_raise in H2 as [s Hs].
      eapply scale_point_malformed; eassumption.
  - split; [|split].
    + split; [intros [? ?]; discriminate|].
      intros [HF _]. apply face_pass_ok in HF as [? ?]. congruence.
    + discriminate.
    + intros e [= <-]. apply rewrite_all_raise in H1 as [s Hs].
      eapply scale_face_malformed; eassumption.
Qed.

End ScalerProperties.

Lemma small_tin_is_scaled :
  exists doc', scale_document int_literal float_literal no_repr 2.5 small_tin = Ok doc'.
Proof.
  apply (proj1 (scale_document_succeeds_iff_pieces_convert
                  int_literal float_literal no_repr 2.5 small_tin)).
  split; simpl; repeat constructor; eexists; try split; try reflexivity;
    simpl; lia.
Defined.

(** C6, as the specification states it, fails in both directions.  The
    tokens of the [P] element of [double_space], separated by white space,
    are three floats, and those of its [F] element are integers; the Scaler
    raises the error of converting the empty piece between the two spaces.
    The [P] element of [empty_point] has no token at all; the Scaler
    returns the document as it is. *)
Lemma double_space_is_rejected :
  (Forall (fun f => exists l, face_tokens int_literal f l) (find_all "F" double_space)
   /\ Forall (at_least_three_floats float_literal) (find_all "P" double_space)
   /\ scale_document int_literal float_literal no_repr 2 double_space
      = Raise (LiteralError EmptyString))
  /\ (Exists (fun p => ~ at_least_three_floats float_literal p) (find_all "P" empty_point)
      /\ scale_document int_literal float_literal no_repr 2 empty_point
         = Ok empty_point).
Proof.
  split; split.
  - simpl. repeat constructor. eexists. reflexivity.
  - split; [|reflexivity].
    simpl. repeat constructor. eexists. split; [reflexivity | simpl; lia].
  - simpl. apply Exists_cons_hd. intros (l & Hl & Hlen).
    vm_compute in Hl. injection Hl as <-. simpl in Hlen. lia.
  - reflexivity.
Qed.

(** * Rendered numbers *)

Lemma digit_char_is_digit z : is_digit (digit_char (z mod 10)) = true.
Proof.
  assert (H : 0 <= z mod 10 < 10) by (apply Z.mod_pos_bound; lia).
  assert (Hc : z mod 10 = 0 \/ z mod 10 = 1 \/ z mod 10 = 2 \/ z mod 10 = 3
               \/ z mod 10 = 4 \/ z mod 10 = 5 \/ z mod 10 = 6 \/ z mod 10 = 7
               \/ z mod 10 = 8 \/ z mod 10 = 9) by lia.
  repeat (destruct Hc as [-> | Hc]; [reflexivity|]). rewrite Hc. reflexivity.
Qed.

Lemma fixed_digits_all_digits n : forall z acc,
  all_digits acc = true -> all_digits (fixed_digits n z acc) = true.
Proof.
  induction n as [|n IH]; intros z acc Hacc; simpl; [exact Hacc|].
  apply IH. cbn [all_digits]. now rewrite digit_char_is_digit.
Qed.

Lemma fixed_digits_length n : forall z acc,
  String.length (fixed_digits n z acc) = (n + String.length acc)%nat.
Proof.
  induction n as [|n IH]; intros z acc; simpl; [reflexivity|].
  rewrite IH. simpl. lia.
Qed.

Lemma nat_digits_all_digits fuel : forall z acc,
  all_digits acc = true -> all_digits (nat_digits fuel z acc) = true.
Proof.
  induction fuel as [|fuel IH]; intros z acc Hacc; simpl; [exact Hacc|].
  assert (all_digits (String (digit_char (z mod 10)) acc) = true)
    by (cbn [all_digits]; now rewrite digit_char_is_digit).
  destruct (z / 10 =? 0); [assumption | now apply IH].
Qed.

Lemma nat_digits_not_empty fuel : forall z acc,
  (0 < fuel)%nat \/ is_empty acc = false ->
  is_empty (nat_digits fuel z acc) = false.
Proof.
  induction fuel as [|fuel IH]; intros z acc H; simpl.
  - destruct H as [H|H]; [lia | exact H].
  - destruct (z / 10 =? 0); [reflexivity|]. apply IH. now right.
Qed.

Lemma str_nat_all_digits z : all_digits (str_nat z) = true.
Proof. now apply nat_digits_all_digits. Qed.

Lemma str_nat_not_empty z : is_empty (str_nat z) = false.
Proof. apply nat_digits_not_empty. left. lia. Qed.

Lemma is_digit_not_point c : is_digit c = true -> Ascii.eqb c "."%char = false.
Proof.
  destruct (Ascii.eqb_spec c "."%char) as [->|]; [discriminate | reflexivity].
Qed.

Lemma append_empty_r (s : string) : (s ++ EmptyString)%string = s.
Proof.
  induction s as [|c s IH]; [reflexivity|].
  change (String c (s ++ EmptyString) = String c s). now f_equal.
Qed.

Lemma append_assoc (s1 s2 s3 : string) :
  ((s1 ++ s2) ++ s3)%string = (s1 ++ (s2 ++ s3))%string.
Proof.
  induction s1 as [|c s1 IH]; [reflexivity|].
  change (String c ((s1 ++ s2) ++ s3) = String c (s1 ++ (s2 ++ s3))). now f_equal.
Qed.

Lemma append_cons (c : ascii) (s t : string) :
  (String c s ++ t)%string = String c (s ++ t).
Proof. reflexivity. Qed.

Lemma split_point_digits ip : forall fp cur,
  all_digits ip = true ->
  split_point (ip ++ String "." fp) cur = ((cur ++ ip)%string, Some fp).
Proof.
  induction ip as [|c ip IH]; intros fp cur Hip.
  - change (EmptyString ++ String "." fp)%string with (String "." fp).
    cbn [split_point]. now rewrite append_empty_r.
  - cbn [all_digits] in Hip. apply andb_prop in Hip as [Hc Hip].
    rewrite append_cons. cbn [split_point].
    rewrite (is_digit_not_point c Hc), IH by assumption.
    now rewrite append_assoc.
Qed.

(** Digits, a point and [digits] digits, with or without a sign, have the
    fixed-point shape. *)
Lemma fixed_point_shape digits (s : bool) ip fp :
  is_empty ip = false -> all_digits ip = true -> all_digits fp = true ->
  String.length fp = digits ->
  fixed_point digits (sign_prefix s (ip ++ String "." fp)) = true.
Proof.
  intros Hne Hip Hfp Hlen. unfold fixed_point.
  assert (Hbody : (match sign_prefix s (ip ++ String "." fp) with
                   | String "-" s' => s'
                   | _ => sign_prefix s (ip ++ String "." fp)
                   end) = (ip ++ String "." fp)%string).
  { destruct s; [reflexivity|]. cbn [sign_prefix].
    destruct ip as [|c ip]; [discriminate|].
    cbn [all_digits] in Hip. rewrite append_cons.
    apply andb_prop in Hip as [Hc _].
    destruct (Ascii.eqb_spec c "-"%char) as [->|Hn]; [discriminate|].
    destruct c as [[] [] [] [] [] [] [] []]; try reflexivity. now elim Hn. }
  rewrite Hbody, split_point_digits by assumption.
  change (EmptyString ++ ip)%string with ip.
  rewrite Hne, Hip, Hfp, Hlen, Nat.eqb_refl. reflexivity.
Qed.

(** A double that is a number is rendered with exactly [digits] digits
    after the point. *)
Lemma format_f_fixed_point digits x :
  finite x = true -> fixed_point digits (format_f digits x) = true.
Proof.
  unfold finite, format_f.
  destruct (Prim2SF x) as [s|s| |s m e]; try discriminate; intros _.
  - apply (fixed_point_shape digits s "0").
    + reflexivity.
    + reflexivity.
    + now apply fixed_digits_all_digits.
    + rewrite fixed_digits_length. simpl. lia.
  - apply fixed_point_shape.
    + apply str_nat_not_empty.
    + apply str_nat_all_digits.
    + now apply fixed_digits_all_digits.
    + rewrite fixed_digits_length. simpl. lia.
Qed.

(** What is not a number has no digits after a point. *)
Lemma format_f_not_finite digits x :
  finite x = false -> fixed_point digits (format_f digits x) = false.
Proof.
  unfold finite, format_f.
  destruct (Prim2SF x) as [s|[]| |s m e]; try discriminate; reflexivity.
Qed.

(** ** The value that is rendered *)

Lemma round_half_even_near n d :
  0 < d -> 2 * Z.abs (round_half_even n d * d - n) <= d.
Proof.
  intros Hd. unfold round_half_even.
  pose proof (Z.div_mod n d ltac:(lia)) as Hdm.
  pose proof (Z.mod_pos_bound n d Hd) as Hb.
  destruct (Z.compare_spec (2 * (n mod d)) d) as [H|H|H].
  - destruct (Z.even (n / d)); nia.
  - nia.
  - nia.
Qed.

Lemma digit_value_char z :
  Z.of_nat (nat_of_ascii (digit_char (z mod 10))) - 48 = z mod 10.
Proof.
  assert (H : 0 <= z mod 10 < 10) by (apply Z.mod_pos_bound; lia).
  unfold digit_char. rewrite nat_ascii_embedding by lia. lia.
Qed.

Lemma digits_value_fixed n : forall z acc a,
  digits_value (fixed_digits n z acc) a
  = digits_value acc (a * 10 ^ Z.of_nat n + z mod 10 ^ Z.of_nat n).
Proof.
  induction n as [|n IH]; intros z acc a.
  - simpl. rewrite Z.mod_1_r. f_equal. lia.
  - cbn [fixed_digits]. rewrite IH. cbn [digits_value].
    rewrite digit_char_is_digit, digit_value_char. f_equal.
    rewrite Nat2Z.inj_succ, Z.pow_succ_r by lia.
    rewrite (Z.rem_mul_r z 10 (10 ^ Z.of_nat n)) by lia. lia.
Qed.

Lemma nat_digits_fixed fuel : forall z acc,
  0 <= z < 2 ^ Z.of_nat fuel ->
  exists n, nat_digits fuel z acc = fixed_digits n z acc /\ z < 10 ^ Z.of_nat n.
Proof.
  induction fuel as [|fuel IH]; intros z acc Hz.
  - exists 0%nat. simpl in *. split; [reflexivity | lia].
  - cbn [nat_digits]. destruct (Z.eqb_spec (z / 10) 0) as [H0|H0].
    + exists 1%nat. split; [reflexivity|].
      pose proof (Z.div_mod z 10 ltac:(lia)). pose proof (Z.mod_pos_bound z 10 ltac:(lia)).
      simpl. lia.
    + rewrite Nat2Z.inj_succ, Z.pow_succ_r in Hz by lia.
      destruct (IH (z / 10) (String (digit_char (z mod 10)) acc)) as (n & Hn & Hlt).
      { split; [apply Z.div_pos; lia|].
        apply Z.div_lt_upper_bound; lia. }
      exists (S n). split; [exact Hn|].
      rewrite Nat2Z.inj_succ, Z.pow_succ_r by lia.
      pose proof (Z.div_mod z 10 ltac:(lia)). pose proof (Z.mod_pos_bound z 10 ltac:(lia)).
      lia.
Qed.

Lemma str_nat_fixed z :
  0 <= z -> exists n, str_nat z = fixed_digits n z EmptyString /\ z < 10 ^ Z.of_nat n.
Proof.
  intros Hz. apply nat_digits_fixed. split; [assumption|].
  destruct (Z.eq_dec z 0) as [->|Hne]; [simpl; lia|].
  rewrite Nat2Z.inj_succ, Z2Nat.id by apply Z.log2_nonneg.
  apply Z.log2_spec. lia.
Qed.

Lemma nearest_units (n a d : Z) :
  0 < d -> 2 * Z.abs (n * d - a) <= d ->
  (Qabs (inject_Z n - inject_Z a / inject_Z d) <= 1 # 2)%Q.
Proof.
  intros Hd H. destruct d as [|p|p]; try lia.
  apply Qabs_Qle_condition.
  unfold Qle, Qdiv, Qinv, Qminus, Qplus, Qopp, Qmult, inject_Z; simpl.
  split; nia.
Qed.

Lemma exact_scaled_nonneg (m : positive) (e : Z) (digits : nat) :
  0 <= e ->
  (inject_Z (Z.pos m * 2 ^ e * 10 ^ Z.of_nat digits)
   == inject_Z (Z.pos m) * Qpower 2 e * inject_Z (10 ^ Z.of_nat digits))%Q.
Proof.
  intros He. rewrite !inject_Z_mult, (Zpower_Qpower 2 e He). reflexivity.
Qed.

Lemma exact_scaled_neg (m : positive) (k : positive) (digits : nat) :
  (inject_Z (Z.pos m) * Qpower 2 (Z.neg k) * inject_Z (10 ^ Z.of_nat digits)
   == inject_Z (Z.pos m * 10 ^ Z.of_nat digits) / inject_Z (2 ^ Z.pos k))%Q.
Proof.
  rewrite inject_Z_mult, (Zpower_Qpower 2 (Z.pos k)) by lia.
  change (Z.neg k) with (- Z.pos k). rewrite Qpower_opp.
  change (inject_Z 2) with 2%Q.
  assert (H : ~ (2 ^ Z.pos k == 0)%Q) by (apply Qpower_not_0; discriminate).
  field. exact H.
Qed.

Lemma scaled_magnitude_nearest (digits : nat) (m : positive) (e : Z) :
  (Qabs (inject_Z (scaled_magnitude digits m e)
         - inject_Z (Z.pos m) * Qpower 2 e * inject_Z (10 ^ Z.of_nat digits))
   <= 1 # 2)%Q.
Proof.
  unfold scaled_magnitude. destruct (Z.leb_spec 0 e) as [He|He].
  - rewrite exact_scaled_nonneg by assumption.
    match goal with
    | |- (Qabs (?a - ?a) <= _)%Q =>
        setoid_replace (a - a)%Q with 0%Q using relation Qeq by ring
    end.
    discriminate.
  - destruct e as [|p|k]; try lia.
    rewrite exact_scaled_neg. change (- Z.neg k) with (Z.pos k).
    assert (Hd : 0 < 2 ^ Z.pos k) by (apply Z.pow_pos_nonneg; lia).
    apply nearest_units; [exact Hd|]. now apply round_half_even_near.
Qed.

Lemma fixed_digits_append n : forall z acc,
  fixed_digits n z acc = (fixed_digits n z EmptyString ++ acc)%string.
Proof.
  induction n as [|n IH]; intros z acc; [reflexivity|].
  cbn [fixed_digits].
  rewrite (IH (z / 10) (String _ acc)), (IH (z / 10) (String _ EmptyString)).
  now rewrite append_assoc.
Qed.

Lemma digits_value_rendering (k r : Z) (digits : nat) :
  0 <= k -> 0 <= r < 10 ^ Z.of_nat digits ->
  digits_value (str_nat k ++ fixed_digits digits r EmptyString) 0
  = Some (k * 10 ^ Z.of_nat digits + r).
Proof.
  intros Hk Hr. destruct (str_nat_fixed k Hk) as (n & -> & Hn).
  rewrite <- fixed_digits_append, !digits_value_fixed.
  cbn [digits_value]. rewrite !Z.mod_small by lia. f_equal; lia.
Qed.

Lemma decimal_units_rendering (s : bool) (ip fp : string) :
  is_empty ip = false -> all_digits ip = true ->
  decimal_units (sign_prefix s (ip ++ String "." fp))
  = match digits_value (ip ++ fp) 0 with
    | Some n => Some (if s then - n else n)
    | None => None
    end.
Proof.
  intros Hne Hip. unfold decimal_units.
  destruct s; cbn [sign_prefix].
  - rewrite split_point_digits by assumption. reflexivity.
  - destruct ip as [|c ip]; [discriminate|].
    cbn [all_digits] in Hip. apply andb_prop in Hip as [Hc Hip].
    assert (Hsplit := split_point_digits (String c ip) fp EmptyString).
    cbn [all_digits] in Hsplit. rewrite Hc, Hip in Hsplit.
    specialize (Hsplit eq_refl). rewrite append_cons in *.
    destruct (Ascii.eqb_spec c "-"%char) as [->|Hn]; [discriminate|].
    destruct c as [[] [] [] [] [] [] [] []]; try (rewrite Hsplit; reflexivity).
    now elim Hn.
Qed.

Lemma round_half_even_nonneg n d : 0 <= n -> 0 < d -> 0 <= round_half_even n d.
Proof.
  intros Hn Hd. unfold round_half_even.
  assert (0 <= n / d) by (apply Z.div_pos; lia).
  destruct (2 * (n mod d) ?= d); [destruct (Z.even (n / d))| |]; lia.
Qed.

Lemma scaled_magnitude_nonneg digits m e : 0 <= scaled_magnitude digits m e.
Proof.
  unfold scaled_magnitude.
  assert (0 < 10 ^ Z.of_nat digits) by (apply Z.pow_pos_nonneg; lia).
  destruct (Z.leb_spec 0 e).
  - assert (0 < 2 ^ e) by (apply Z.pow_pos_nonneg; lia). nia.
  - apply round_half_even_nonneg; [nia | apply Z.pow_pos_nonneg; lia].
Qed.

(** The digits printed for [n] units read back as [n]. *)
Lemma decimal_units_of_units (digits : nat) (s : bool) (n : Z) :
  0 <= n ->
  decimal_units
    (sign_prefix s
       (str_nat (n / 10 ^ Z.of_nat digits)
        ++ String "." (fixed_digits digits (n mod 10 ^ Z.of_nat digits) EmptyString)))
  = Some (if s then - n else n).
Proof.
  intros Hn.
  assert (Hp : 0 < 10 ^ Z.of_nat digits) by (apply Z.pow_pos_nonneg; lia).
  rewrite decimal_units_rendering
    by (apply str_nat_not_empty || apply str_nat_all_digits).
  rewrite digits_value_rendering.
  - rewrite Z.mul_comm, <- Z.div_mod by lia. reflexivity.
  - apply Z.div_pos; lia.
  - apply Z.mod_pos_bound; lia.
Qed.

(** A double that is a number is rendered as its value rounded to the
    nearest multiple of [10^-digits]. *)
Lemma format_f_rounds digits x :
  finite x = true -> rounds_to digits x (format_f digits x).
Proof.
  unfold finite, rounds_to, format_f, exact.
  destruct (Prim2SF x) as [s|s| |s m e]; try discriminate; intros _.
  - exists 0, 0%Q. split; [|split; [reflexivity | discriminate]].
    assert (H := decimal_units_of_units digits s 0 ltac:(lia)).
    rewrite Z.div_0_l, Z.mod_0_l in H
      by (apply Z.pow_nonzero; lia).
    destruct s; exact H.
  - pose proof (scaled_magnitude_nonneg digits m e) as Hn.
    pose proof (scaled_magnitude_nearest digits m e) as Hq.
    eexists _, _. split; [apply decimal_units_of_units; exact Hn|].
    split; [reflexivity|].
    destruct s; [|exact Hq].
    rewrite inject_Z_opp.
    match goal with
    | |- (Qabs (- ?a - - ?v * ?p) <= _)%Q =>
        setoid_replace (- a - - v * p)%Q with (- (a - v * p))%Q
          using relation Qeq by ring
    end.
    rewrite Qabs_opp. exact Hq.
Qed.

(** C7, as the code has it.  For a string of a [P] element that cuts at
    single spaces into three floats [x], [y] and [z], and a scale factor
    for which [x * s], [y * s] and [z] are numbers, the Scaler replaces the
    string with three tokens separated by single spaces: [x * s] and
    [y * s] rounded to 12 decimals and rendered with exactly 12 digits after
    the point, and [z], not scaled, rounded to 4 decimals and rendered with
    exactly 4 digits after the point. *)
Theorem scale_point_renders_scaled_coordinates
    (py_float : string -> option float) (float_str : float -> string)
    (s : float) (point tx ty tz : string) (x y z : float) :
  split_space point = [tx; ty; tz] ->
  py_float tx = Some x -> py_float ty = Some y -> py_float tz = Some z ->
  finite (x * s) = true -> finite (y * s) = true -> finite z = true ->
  scale_point py_float float_str s point
  = Ok (format_f 12 (x * s) ++ " " ++ format_f 12 (y * s) ++ " " ++ format_f 4 z)%string
  /\ (fixed_point 12 (format_f 12 (x * s)) = true
      /\ rounds_to 12 (x * s) (format_f 12 (x * s)))
  /\ (fixed_point 12 (format_f 12 (y * s)) = true
      /\ rounds_to 12 (y * s) (format_f 12 (y * s)))
  /\ (fixed_point 4 (format_f 4 z) = true
      /\ rounds_to 4 z (format_f 4 z)).
Proof.
  intros Hsplit Hx Hy Hz Fx Fy Fz.
  split; [|auto using format_f_fixed_point, format_f_rounds].
  unfold scale_point. rewrite Hsplit. cbn [float_list].
  rewrite Hx, Hy, Hz. reflexivity.
Qed.

Lemma scaled_point_example :
  scale_point float_literal no_repr (-2.5) "1.5 -0.25 10.12345"
  = Ok "-3.750000000000 0.625000000000 10.1235"%string.
Proof.
  apply (proj1 (scale_point_renders_scaled_coordinates float_literal no_repr (-2.5)
                  "1.5 -0.25 10.12345" "1.5" "-0.25" "10.12345"
                  1.5 (-0.25) (float_of_Z 1012345 / float_of_Z 100000)
                  eq_refl eq_refl eq_refl eq_refl eq_refl eq_refl eq_refl)).
Defined.

(** C7, as the specification states it, fails: with the largest double
    as the scale factor, the coordinates [2] and [1.5] overflow, and are
    rendered without any digit. *)
Lemma overflow_is_rendered_inf :
  finite max_float = true
  /\ float_list float_literal (split_space "2 1.5 0") = Ok [2; 1.5; 0]%float
  /\ scale_point float_literal no_repr max_float "2 1.5 0" = Ok "inf inf 0.0000"%string
  /\ fixed_point 12 "inf" = false.
Proof. repeat split. Qed.

(** * More about doubles *)

Lemma not_negative_sf x : not_negative x <-> sf_not_negative (Prim2SF x) = true.
Proof.
  unfold not_negative. rewrite FloatAxioms.ltb_spec.
  change (Prim2SF 0) with (S754_zero false).
  destruct (Prim2SF x) as [s|[]| |[] m e]; cbv; intuition congruence.
Qed.

Lemma binary_round_aux_sign l m e :
  sf_not_negative (binary_round_aux prec emax false m e l) = true.
Proof.
  unfold binary_round_aux.
  destruct (shr_fexp prec emax m e l) as [mrs' e'].
  destruct (shr_fexp prec emax _ e' loc_Exact) as [mrs'' e''].
  destruct (shr_m mrs''); [reflexivity | | reflexivity].
  destruct (e'' <=? emax - prec); reflexivity.
Qed.

Lemma binary_round_sign m e :
  sf_not_negative (binary_round prec emax false m e) = true.
Proof.
  unfold binary_round.
  destruct (shl_align m e _) as [mz ez]. apply binary_round_aux_sign.
Qed.

Lemma not_negative_add x y :
  not_negative x -> not_negative y -> not_negative (x + y).
Proof.
  rewrite !not_negative_sf, add_spec. unfold SF64add, SFadd.
  destruct (Prim2SF x) as [[]|[]| |[] mx ex], (Prim2SF y) as [[]|[]| |[] my ey];
    simpl; try discriminate; try reflexivity; intros _ _.
  unfold binary_normalize.
  destruct (shl_align mx ex (Z.min ex ey)) as [ax ?],
           (shl_align my ey (Z.min ex ey)) as [ay ?]; simpl.
  apply binary_round_sign.
Qed.

Lemma not_negative_sqrt x : not_negative (sqrt x).
Proof.
  rewrite not_negative_sf, sqrt_spec. unfold SF64sqrt, SFsqrt.
  destruct (Prim2SF x) as [s|[]| |[] m e]; try reflexivity.
  destruct (SFsqrt_core_binary prec emax (Z.pos m) e) as [[mz ez] lz].
  apply binary_round_aux_sign.
Qed.

Lemma not_negative_half x : not_negative x -> not_negative (0.5 * x).
Proof.
  rewrite !not_negative_sf, mul_spec.
  change (Prim2SF 0.5) with (S754_finite false 4503599627370496 (-53)).
  unfold SF64mul, SFmul.
  destruct (Prim2SF x) as [s|[]| |[] m e]; try discriminate; try reflexivity.
  intros _. apply binary_round_aux_sign.
Qed.

Lemma not_negative_0 : not_negative 0.
Proof. reflexivity. Qed.

(** What is neither below nor above zero is a zero or not a number. *)
Lemma not_negative_not_positive x :
  not_negative x -> (0 <? x)%float = false -> is_zero_float x = true \/ x = nan.
Proof.
  rewrite not_negative_sf, FloatAxioms.ltb_spec. unfold is_zero_float.
  change (Prim2SF 0) with (S754_zero false).
  destruct (Prim2SF x) as [s|[]| |[] m e] eqn:Hx; cbv; try discriminate; auto.
  intros _ _. right. apply Prim2SF_inj. now rewrite Hx.
Qed.

Lemma positive_not_zero_nor_nan x :
  (0 <? x)%float = true -> is_zero_float x = false /\ x <> nan.
Proof.
  rewrite FloatAxioms.ltb_spec. unfold is_zero_float.
  change (Prim2SF 0) with (S754_zero false).
  intros H. split.
  - destruct (Prim2SF x); try reflexivity. discriminate.
  - intros ->. discriminate.
Qed.

Lemma triangle_area_not_negative v1 v2 v3 :
  not_negative (compute_triangle_area v1 v2 v3).
Proof.
  unfold compute_triangle_area, norm. apply not_negative_half, not_negative_sqrt.
Qed.

(** *** Exchanging the operands of a subtraction *)

Lemma binary_round_aux_opp s m e l :
  binary_round_aux prec emax (negb s) m e l = SFopp (binary_round_aux prec emax s m e l).
Proof.
  unfold binary_round_aux.
  destruct (shr_fexp prec emax m e l) as [mrs' e'].
  destruct (shr_fexp prec emax _ e' loc_Exact) as [mrs'' e''].
  destruct (shr_m mrs''); [reflexivity | | reflexivity].
  destruct (e'' <=? emax - prec); reflexivity.
Qed.

Lemma binary_round_opp m e :
  binary_round prec emax true m e = SFopp (binary_round prec emax false m e).
Proof.
  unfold binary_round. destruct (shl_align m e _) as [mz ez].
  apply (binary_round_aux_opp false).
Qed.

(** [y - x] is the opposite of [x - y], unless both are the positive
    zero. *)
Lemma sub_swap x y :
  Prim2SF (y - x) = SFopp (Prim2SF (x - y))
  \/ (Prim2SF (x - y) = S754_zero false /\ Prim2SF (y - x) = S754_zero false).
Proof.
  rewrite !sub_spec. unfold SF64sub, SFsub.
  destruct (Prim2SF x) as [[]|[]| |sx mx ex], (Prim2SF y) as [[]|[]| |sy my ey];
    simpl; auto.
  - left. now rewrite negb_involutive.
  - left. now rewrite negb_involutive.
  - rewrite (Z.min_comm ey ex).
    set (a := cond_Zopp sx (Z.pos (fst (shl_align mx ex (Z.min ex ey))))).
    set (b := cond_Zopp sy (Z.pos (fst (shl_align my ey (Z.min ex ey))))).
    replace (b - a) with (- (a - b)) by lia.
    destruct (a - b) as [|p|p]; simpl; auto.
    + left. apply binary_round_opp.
    + left. rewrite binary_round_opp. destruct (binary_round prec emax false p _) as [[]|[]| |[] ? ?]; reflexivity.
Qed.

Lemma SFfma_opp_opp f z : SFfma (SFopp f) (SFopp f) z = SFfma f f z.
Proof. destruct f as [[]|[]| |[] m e]; reflexivity. Qed.

(** The square of [y - x] is the square of [x - y], whatever it is added
    to. *)
Lemma fma_square_sub_swap x y acc :
  fma (y - x) (y - x) acc = fma (x - y) (x - y) acc.
Proof.
  unfold fma. f_equal.
  destruct (sub_swap x y) as [-> | [-> ->]]; [apply SFfma_opp_opp | reflexivity].
Qed.

Lemma cross_swap_squares a b :
  let c := cross a b in let c' := cross b a in
  (forall acc, fma (vx c') (vx c') acc = fma (vx c) (vx c) acc)
  /\ (forall acc, fma (vy c') (vy c') acc = fma (vy c) (vy c) acc)
  /\ (forall acc, fma (vz c') (vz c') acc = fma (vz c) (vz c) acc).
Proof.
  simpl.
  rewrite (mul_comm (vy b) (vz a)), (mul_comm (vz b) (vy a)),
          (mul_comm (vz b) (vx a)), (mul_comm (vx b) (vz a)),
          (mul_comm (vx b) (vy a)), (mul_comm (vy b) (vx a)).
  repeat split; intros acc; apply fma_square_sub_swap.
Qed.

(** *** The same number up to the sign of a zero *)

Lemma add_zero_r_same x z : is_zero_float z = true -> same_number (x + z) x.
Proof.
  unfold same_number, is_zero_float. intros Hz.
  destruct (Prim2SF x) as [sx|sx| |sx mx ex] eqn:Hx.
  - right. rewrite add_spec, Hx. unfold SF64add, SFadd.
    destruct (Prim2SF z) as [sz| | |]; try discriminate.
    destruct sx, sz; auto.
  - left. apply Prim2SF_inj. rewrite add_spec, Hx.
    destruct (Prim2SF z); try discriminate. reflexivity.
  - left. apply Prim2SF_inj. rewrite add_spec, Hx. reflexivity.
  - left. apply Prim2SF_inj. rewrite add_spec, Hx.
    destruct (Prim2SF z); try discriminate. reflexivity.
Qed.

Lemma add_same_l x x' y : same_number x x' -> same_number (x + y) (x' + y).
Proof.
  intros [-> | [Hx Hx']]; [now left|].
  unfold same_number, is_zero_float in *.
  destruct (Prim2SF x) as [sx| | |] eqn:Ex; try discriminate.
  destruct (Prim2SF x') as [sx'| | |] eqn:Ex'; try discriminate.
  destruct (Prim2SF y) as [sy|sy| |sy my ey] eqn:Ey.
  - right. rewrite !add_spec, Ex, Ex', Ey. unfold SF64add, SFadd.
    destruct sx, sx', sy; auto.
  - left. apply Prim2SF_inj. rewrite !add_spec, Ex, Ex', Ey. reflexivity.
  - left. apply Prim2SF_inj. rewrite !add_spec, Ex, Ex', Ey. reflexivity.
  - left. apply Prim2SF_inj. rewrite !add_spec, Ex, Ex', Ey. reflexivity.
Qed.

Lemma div_same_l x x' t : same_number x x' -> same_number (x / t) (x' / t).
Proof.
  intros [-> | [Hx Hx']]; [now left|].
  unfold same_number, is_zero_float in *.
  destruct (Prim2SF x) as [sx| | |] eqn:Ex; try discriminate.
  destruct (Prim2SF x') as [sx'| | |] eqn:Ex'; try discriminate.
  destruct (Prim2SF t) as [st|st| |st mt et] eqn:Et.
  - left. apply Prim2SF_inj. rewrite !div_spec, Ex, Ex', Et. reflexivity.
  - right. rewrite !div_spec, Ex, Ex', Et. auto.
  - left. apply Prim2SF_inj. rewrite !div_spec, Ex, Ex', Et. reflexivity.
  - right. rewrite !div_spec, Ex, Ex', Et. auto.
Qed.

Lemma same_number_positive x x' :
  same_number x x' -> (0 <? x)%float = (0 <? x')%float.
Proof.
  intros [-> | [Hx Hx']]; [reflexivity|].
  now rewrite !is_zero_not_positive.
Qed.

Lemma same_number_positive_eq x x' :
  same_number x x' -> (0 <? x)%float = true -> x = x'.
Proof.
  intros [-> | [Hx _]]; [reflexivity|].
  rewrite is_zero_not_positive by assumption. discriminate.
Qed.

Lemma mul_opp_r x s : Prim2SF (x * - s) = SFopp (Prim2SF (x * s)).
Proof.
  rewrite !mul_spec, opp_spec. unfold SF64mul, SFmul.
  destruct (Prim2SF x) as [sx|sx| |sx mx ex], (Prim2SF s) as [ss|ss| |ss ms es];
    simpl; try reflexivity;
    try (destruct sx, ss; reflexivity).
  replace (xorb sx (negb ss)) with (negb (xorb sx ss)) by (destruct sx, ss; reflexivity).
  apply binary_round_aux_opp.
Qed.

Lemma format_f_mirrored digits u v :
  Prim2SF v = SFopp (Prim2SF u) -> mirrored (format_f digits u) (format_f digits v).
Proof.
  unfold format_f, mirrored. intros ->.
  destruct (Prim2SF u) as [[]|[]| |[] m e]; simpl; auto.
Qed.


(** * More about the calculator *)

Lemma area_sum_from_not_negative ts : forall a,
  not_negative a ->
  not_negative (fold_left (fun a t => (a + area_of t)%float) ts a).
Proof.
  induction ts as [|[[v1 v2] v3] ts IH]; intros a Ha; simpl; [exact Ha|].
  apply IH, not_negative_add; [exact Ha | apply triangle_area_not_negative].
Qed.

Lemma area_sum_not_negative ts : not_negative (area_sum ts).
Proof. apply area_sum_from_not_negative, not_negative_0. Qed.

Lemma centroid_loop_app points l1 l2 acc :
  centroid_loop points (l1 ++ l2) acc
  = (acc' <- centroid_loop points l1 acc ;; centroid_loop points l2 acc').
Proof.
  revert acc. induction l1 as [|face l1 IH]; intros acc; simpl; [reflexivity|].
  destruct (resolve points face) as [[[v1 v2] v3]|e]; simpl; [apply IH | reflexivity].
Qed.

(** The loop from accumulators that are the same up to the sign of a zero. *)
Lemma centroid_loop_same points faces : forall twc twc' ta ta',
  same_point twc twc' -> same_number ta ta' ->
  match centroid_loop points faces (twc, ta), centroid_loop points faces (twc', ta') with
  | Ok (w, a), Ok (w', a') => same_point w w' /\ same_number a a'
  | Raise e, Raise e' => e = e'
  | _, _ => False
  end.
Proof.
  induction faces as [|face faces IH]; intros twc twc' ta ta' Hw Ha; simpl.
  - auto.
  - destruct (resolve points face) as [[[v1 v2] v3]|e]; simpl; [|reflexivity].
    apply IH.
    + destruct Hw as (Hx & Hy & Hz). repeat split; simpl; now apply add_same_l.
    + now apply add_same_l.
Qed.

Lemma zero_area_step twc ta t :
  is_zero_float (area_of t) = true -> finite3 (average_of t) = true ->
  same_point (vadd twc (vscale (area_of t) (average_of t))) twc
  /\ same_number (ta + area_of t) ta.
Proof.
  intros Hz Hf. unfold finite3 in Hf.
  apply andb_prop in Hf as [Hf Hfz]. apply andb_prop in Hf as [Hfx Hfy].
  split; [repeat split; simpl|];
    apply add_zero_r_same; auto using is_zero_mul_l.
Qed.

(** X1.  The area [compute_triangle_area] returns is never below zero: it
    is a NaN, a zero or a positive number, whatever the coordinates. *)
Theorem triangle_area_never_negative (v1 v2 v3 : vec3) :
  (compute_triangle_area v1 v2 v3 <? 0)%float = false.
Proof. apply triangle_area_not_negative. Qed.

(** X2.  Exchanging the second and the third vertex leaves the area as
    it is, bit for bit: the orientation of a triangle does not matter. *)
Theorem triangle_area_orientation (v1 v2 v3 : vec3) :
  compute_triangle_area v1 v3 v2 = compute_triangle_area v1 v2 v3.
Proof.
  unfold compute_triangle_area, norm, dot.
  destruct (cross_swap_squares (vsub v2 v1) (vsub v3 v1)) as (Hx & Hy & Hz).
  cbn [cross vsub vx vy vz] in *. now rewrite Hx, Hy, Hz.
Qed.

(** X3.  When the faces resolve, the accumulated area is never below
    zero; [compute_weighted_centroid] returns a point exactly when it is
    positive, and [None] exactly when it is a zero or a NaN. *)
Theorem centroid_returned_iff_positive_area
    (points : gmap Z vec3) (faces : list (list Z)) (ts : list triangle) :
  Forall2 (fun face t => vertices_of points face = Some t) faces ts ->
  (area_sum ts <? 0)%float = false
  /\ ((exists c, compute_weighted_centroid points faces = Ok (Some c))
      <-> (0 <? area_sum ts)%float = true)
  /\ (compute_weighted_centroid points faces = Ok None
      <-> is_zero_float (area_sum ts) = true \/ area_sum ts = nan).
Proof.
  intros H. rewrite (compute_weighted_centroid_sums _ _ _ H).
  pose proof (area_sum_not_negative ts) as Hn.
  split; [exact Hn|].
  destruct (0 <? area_sum ts)%float eqn:Hpos.
  - apply positive_not_zero_nor_nan in Hpos as [Hz Hnan].
    split; split; eauto; try discriminate.
    intros [Hz' | Hnan']; congruence.
  - split; split; try discriminate; try (intros [c Hc]; discriminate); auto.
    intros _. now apply not_negative_not_positive.
Qed.

(** X4.  A face of area zero whose vertex average is a number contributes
    nothing: taking it out of the face list, wherever it stands, leaves
    the outcome as it is, up to the sign of a zero coordinate. *)
Theorem zero_area_face_contributes_nothing
    (points : gmap Z vec3) (pre post : list (list Z)) (face : list Z) (t : triangle) :
  vertices_of points face = Some t ->
  is_zero_float (area_of t) = true ->
  finite3 (average_of t) = true ->
  same_centroid (compute_weighted_centroid points (pre ++ face :: post))
                (compute_weighted_centroid points (pre ++ post)).
Proof.
  intros Hface Hz Hf. unfold compute_weighted_centroid.
  rewrite !centroid_loop_app.
  destruct (centroid_loop points pre (zeros3, 0%float)) as [[twc ta]|e]; simpl;
    [|reflexivity].
  rewrite (resolve_vertices _ _ _ Hface). simpl.
  destruct t as [[v1 v2] v3].
  destruct (zero_area_step twc ta (v1, v2, v3) Hz Hf) as [Hw Ha].
  pose proof (centroid_loop_same points post _ _ _ _ Hw Ha) as Hloop.
  simpl in Hloop.
  destruct (centroid_loop points post (vadd twc _, _)) as [[w a]|e],
           (centroid_loop points post (twc, ta)) as [[w' a']|e']; simpl;
    try contradiction; [|exact Hloop].
  destruct Hloop as [Hww Haa].
  rewrite (same_number_positive _ _ Haa).
  destruct (0 <? a')%float eqn:Hpos; simpl; [|exact I].
  assert (a = a') as ->.
  { apply same_number_positive_eq; [exact Haa|].
    now rewrite (same_number_positive _ _ Haa). }
  destruct Hww as (Hx & Hy & Hz'). repeat split; simpl; now apply div_same_l.
Qed.

(** X5.  A face with fewer than three IDs, all of them in the mapping,
    that comes after faces that resolve makes the calculator raise
    [IndexError], not the error of a dangling reference. *)
Theorem short_face_raises_IndexError
    (points : gmap Z vec3) (pre post : list (list Z)) (face : list Z)
    (ts : list triangle) :
  Forall2 (fun face t => vertices_of points face = Some t) pre ts ->
  (length face < 3)%nat ->
  Forall (fun k => is_Some (points !! k)) face ->
  compute_weighted_centroid points (pre ++ face :: post) = Raise IndexError.
Proof.
  intros Hpre Hlen Hin. unfold compute_weighted_centroid.
  rewrite centroid_loop_app, (centroid_loop_sums _ _ _ Hpre). simpl.
  unfold resolve, index, point_of.
  destruct face as [|i [|j [|k rest]]]; simpl in *; try lia; try reflexivity.
  - inversion Hin as [|? ? [v Hv] _]; subst. rewrite Hv. reflexivity.
  - inversion Hin as [|? ? [v Hv] Hin']; subst.
    inversion Hin' as [|? ? [w Hw] _]; subst. rewrite Hv, Hw. reflexivity.
Qed.

Lemma resolve_agree (points points' : gmap Z vec3) (face : list Z) :
  (forall k, In k face -> points !! k = points' !! k) ->
  resolve points face = resolve points' face.
Proof.
  intros H. unfold resolve, index, point_of.
  destruct face as [|i [|j [|k rest]]]; simpl in *;
    rewrite <- ?(H i), <- ?(H j), <- ?(H k) by auto; reflexivity.
Qed.

Lemma centroid_loop_agree (points points' : gmap Z vec3) faces : forall acc,
  Forall (fun face => forall k, In k face -> points !! k = points' !! k) faces ->
  centroid_loop points faces acc = centroid_loop points' faces acc.
Proof.
  induction faces as [|face faces IH]; intros acc H; [reflexivity|].
  inversion H as [|? ? Hface Hrest]; subst. simpl.
  rewrite (resolve_agree _ _ _ Hface).
  destruct (resolve points' face) as [[[v1 v2] v3]|]; simpl; [now apply IH | reflexivity].
Qed.

(** X7.  The outcome depends on the mapping only through the IDs the
    faces name: two mappings that agree on them give the same outcome,
    error included. *)
Theorem centroid_ignores_unused_points
    (points points' : gmap Z vec3) (faces : list (list Z)) :
  Forall (fun face => forall k, In k face -> points !! k = points' !! k) faces ->
  compute_weighted_centroid points faces = compute_weighted_centroid points' faces.
Proof.
  intros H. unfold compute_weighted_centroid. now rewrite (centroid_loop_agree _ _ _ _ H).
Qed.

Lemma vertices_of_take points face :
  vertices_of points (take 3 face) = vertices_of points face.
Proof. destruct face as [|i [|j [|k rest]]]; reflexivity. Qed.

(** X6.  IDs after the third are not used: when the first three IDs of
    every face are in the mapping, the outcome is that of the faces cut to
    their first three IDs, even if a later ID is in no mapping. *)
Theorem ids_after_the_third_are_ignored
    (points : gmap Z vec3) (faces : list (list Z)) (ts : list triangle) :
  Forall2 (fun face t => vertices_of points (take 3 face) = Some t) faces ts ->
  compute_weighted_centroid points faces
  = compute_weighted_centroid points (map (take 3) faces).
Proof.
  intros H.
  rewrite (compute_weighted_centroid_sums points faces ts),
          (compute_weighted_centroid_sums points (map (take 3) faces) ts).
  - reflexivity.
  - apply Forall2_fmap_l. eapply Forall2_impl; [exact H|]. auto.
  - eapply Forall2_impl; [exact H|]. intros face t Hf.
    now rewrite <- vertices_of_take.
Qed.

(** * More about the Extractor *)

Section ExtractorLoops.
Variable py_int : string -> option Z.
Variable py_float : string -> option float.

Lemma int_list_raise_inv tokens e :
  int_list py_int tokens = Raise e ->
  exists tok, e = LiteralError tok /\ In tok tokens /\ py_int tok = None.
Proof.
  induction tokens as [|t tokens IH]; simpl; [discriminate|].
  destruct (py_int t) eqn:Ht.
  - destruct (int_list py_int tokens); simpl; [discriminate|].
    intros [= <-]. destruct IH as (tok & -> & Hin & Htok); eauto.
  - intros [= <-]. eauto.
Qed.

Lemma faces_loop_triples fs : forall acc faces,
  Forall (fun f => length f = 3%nat) acc ->
  faces_loop py_int fs acc = Ok faces ->
  Forall (fun f => length f = 3%nat) faces.
Proof.
  induction fs as [|face fs IH]; intros acc faces Hacc; simpl.
  - now intros [= <-].
  - destruct (int_list py_int (split_ws (text face))) as [l|]; simpl; [|discriminate].
    apply IH. destruct (Nat.eqb_spec (length l) 3); [|exact Hacc].
    apply Forall_app. split; [exact Hacc | now constructor].
Qed.

Lemma faces_loop_raise_inv fs : forall acc e,
  faces_loop py_int fs acc = Raise e ->
  exists face tok, In face fs /\ In tok (split_ws (text face))
                   /\ py_int tok = None /\ e = LiteralError tok.
Proof.
  induction fs as [|face fs IH]; intros acc e; simpl; [discriminate|].
  destruct (int_list py_int (split_ws (text face))) as [l|e'] eqn:Hl; simpl.
  - intros H. destruct (IH _ _ H) as (f & tok & Hin & Htok & Hnone & ->).
    exists f, tok. auto.
  - intros [= <-]. apply int_list_raise_inv in Hl as (tok & -> & Hin & Hnone).
    exists face, tok. auto.
Qed.

Lemma points_loop_raise_inv ps : forall points e,
  points_loop py_int py_float ps points = Raise e ->
  exists p, In p ps /\ e = InvalidPoint p.
Proof.
  induction ps as [|p ps IH]; intros points e; simpl; [discriminate|].
  destruct (point_body py_int py_float p points) as [points'|e'].
  - intros H. destruct (IH _ _ H) as (q & Hin & ->). eauto.
  - intros [= <-]. eauto.
Qed.

Lemma has_id_functional p pid pid' :
  has_id py_int p pid -> has_id py_int p pid' -> pid = pid'.
Proof. intros (v & Hv & Hp) (v' & Hv' & Hp'). congruence. Qed.

(** Where an entry of the mapping comes from: the mapping the loop
    started with, or an element that stores it. *)
Lemma points_loop_entry ps : forall points points' pid v,
  points_loop py_int py_float ps points = Ok points' ->
  points' !! pid = Some v ->
  points !! pid = Some v \/ Exists (fun p => stores py_int py_float p pid v) ps.
Proof.
  induction ps as [|q ps IH]; intros points points' pid v; simpl.
  - intros [= <-]. auto.
  - destruct (point_cases py_int py_float q) as [(qid & l & Hid & Hl)|Hbad].
    + rewrite (point_body_ok _ _ _ _ _ _ Hid Hl). intros Hloop Hlook.
      destruct (IH _ _ _ _ Hloop Hlook) as [Hm|Hex]; [|auto].
      destruct l as [|x [|y [|z [|? ?]]]]; auto.
      destruct (Z.eq_dec qid pid) as [->|Hne].
      * rewrite lookup_insert_eq in Hm. injection Hm as <-.
        right. apply Exists_cons_hd. split; assumption.
      * rewrite lookup_insert_ne in Hm by assumption. auto.
    + destruct (point_body_raise py_int py_float q points Hbad) as [e ->].
      discriminate.
Qed.

(** An ID without an entry: no element stores under it. *)
Lemma points_loop_no_entry ps : forall points points' pid,
  points_loop py_int py_float ps points = Ok points' ->
  points' !! pid = None ->
  points !! pid = None
  /\ Forall (fun p => forall v, ~ stores py_int py_float p pid v) ps.
Proof.
  induction ps as [|q ps IH]; intros points points' pid; simpl.
  - intros [= <-]. auto.
  - destruct (point_cases py_int py_float q) as [(qid & l & Hid & Hl)|Hbad].
    + rewrite (point_body_ok _ _ _ _ _ _ Hid Hl). intros Hloop Hlook.
      destruct (IH _ _ _ Hloop Hlook) as [Hm Hall].
      assert (Hq : points !! pid = None
                   /\ forall v, ~ stores py_int py_float q pid v).
      { destruct (Z.eq_dec qid pid) as [->|Hne].
        - destruct l as [|x [|y [|z [|? ?]]]];
            try (split; [exact Hm|];
                 intros v [_ Hv]; unfold point_tokens in *; congruence).
          rewrite lookup_insert_eq in Hm. discriminate.
        - split.
          + destruct l as [|x [|y [|z [|? ?]]]]; try exact Hm.
            now rewrite lookup_insert_ne in Hm.
          + intros v [Hid' _]. apply Hne. eapply has_id_functional; eassumption. }
      destruct Hq as [Hp Hq]. split; [exact Hp | now constructor].
    + destruct (point_body_raise py_int py_float q points Hbad) as [e ->].
      discriminate.
Qed.

End ExtractorLoops.

(** On triplets, the only error of the calculator is the dangling
    reference of one of them. *)
Lemma centroid_loop_raise_inv points faces : forall acc e,
  Forall (fun f => length f = 3%nat) faces ->
  centroid_loop points faces acc = Raise e ->
  exists face, In face faces /\ dangling points face /\ e = DanglingReference face.
Proof.
  induction faces as [|face faces IH]; intros acc e Hlen; simpl; [discriminate|].
  inversion Hlen as [|? ? Hface Hrest]; subst.
  destruct (dangling_dec points face) as [Hd|Hnd].
  - rewrite (resolve_dangling _ _ Hface Hd). simpl. intros [= <-]. eauto.
  - destruct (not_dangling_vertices _ _ Hface Hnd) as [[[v1 v2] v3] Ht].
    rewrite (resolve_vertices _ _ _ Ht). simpl. intros H.
    destruct (IH _ _ Hrest H) as (f & Hin & Hf & ->). eauto.
Qed.

Section ExtractorInvariants.
Variable py_int : string -> option Z.
Variable py_float : string -> option float.
Variable open_xml : string -> document + string.

Lemma parse_ok_inv doc points faces :
  parse_tin_geometry py_int py_float doc = Ok (points, faces) ->
  faces_loop py_int (find_all "F" doc) [] = Ok faces
  /\ points_loop py_int py_float (find_all "P" doc) ∅ = Ok points.
Proof.
  unfold parse_tin_geometry.
  destruct (faces_loop py_int (find_all "F" doc) []) as [fs|]; simpl;
    [|discriminate].
  destruct (points_loop py_int py_float (find_all "P" doc) ∅) as [m|]; simpl;
    [|discriminate].
  now intros [= <- <-].
Qed.

Lemma parse_raise_inv doc e :
  parse_tin_geometry py_int py_float doc = Raise e ->
  (exists face tok, In face (find_all "F" doc) /\ In tok (split_ws (text face))
                    /\ py_int tok = None /\ e = LiteralError tok)
  \/ (exists p, In p (find_all "P" doc) /\ e = InvalidPoint p).
Proof.
  unfold parse_tin_geometry.
  destruct (faces_loop py_int (find_all "F" doc) []) as [fs|e'] eqn:HF; simpl.
  - destruct (points_loop py_int py_float (find_all "P" doc) ∅) as [m|e'] eqn:HP;
      simpl; [discriminate|].
    intros [= <-]. right. eapply points_loop_raise_inv. exact HP.
  - intros [= <-]. left. eapply faces_loop_raise_inv. exact HF.
Qed.

(** X8.  Every face the Extractor returns has exactly three point IDs. *)
Theorem extracted_faces_are_triples
    (doc : document) (points : gmap Z vec3) (faces : list (list Z)) :
  parse_tin_geometry py_int py_float doc = Ok (points, faces) ->
  Forall (fun face => length face = 3%nat) faces.
Proof.
  intros H. apply parse_ok_inv in H as [HF _].
  eapply faces_loop_triples; [|exact HF]. constructor.
Qed.

(** X9.  An entry of the mapping the Extractor returns is stored by some
    [P] element of the document, with that ID and those three
    coordinates; an ID without an entry is stored by none. *)
Theorem mapping_entries_come_from_points
    (doc : document) (points : gmap Z vec3) (faces : list (list Z)) (pid : Z) :
  parse_tin_geometry py_int py_float doc = Ok (points, faces) ->
  (forall v, points !! pid = Some v ->
     Exists (fun p => stores py_int py_float p pid v) (find_all "P" doc))
  /\ (points !! pid = None ->
      Forall (fun p => forall v, ~ stores py_int py_float p pid v) (find_all "P" doc)).
Proof.
  intros H. apply parse_ok_inv in H as [_ HP]. split.
  - intros v Hv.
    destruct (points_loop_entry py_int py_float _ _ _ _ _ HP Hv) as [H|H];
      [|exact H].
    rewrite lookup_empty in H. discriminate.
  - intros Hnone. now apply (points_loop_no_entry py_int py_float _ _ _ _ HP Hnone).
Qed.

Lemma centroid_of_file_read xml_file doc :
  open_xml xml_file = inl doc ->
  centroid_of_file py_int py_float open_xml xml_file
  = centroid_of_document py_int py_float doc.
Proof.
  intros H. unfold centroid_of_file, parse_tin_file, read_xml. now rewrite H.
Qed.

Lemma centroid_of_document_raise_inv doc e :
  centroid_of_document py_int py_float doc = Raise e ->
  (exists face tok, In face (find_all "F" doc) /\ In tok (split_ws (text face))
                    /\ py_int tok = None /\ e = LiteralError tok)
  \/ (exists p, In p (find_all "P" doc) /\ e = InvalidPoint p)
  \/ (exists points faces face,
        parse_tin_geometry py_int py_float doc = Ok (points, faces)
        /\ In face faces /\ length face = 3%nat
        /\ dangling points face /\ e = DanglingReference face).
Proof.
  unfold centroid_of_document.
  destruct (parse_tin_geometry py_int py_float doc) as [[points faces]|e'] eqn:Hparse;
    simpl.
  - intros H. right. right.
    assert (Hlen : Forall (fun face => length face = 3%nat) faces).
    { apply parse_ok_inv in Hparse as [HF _].
      eapply faces_loop_triples; [|exact HF]. constructor. }
    unfold compute_weighted_centroid in H.
    destruct (centroid_loop points faces (zeros3, 0%float)) as [[w a]|e'] eqn:Hloop;
      simpl in H; [discriminate|].
    injection H as <-.
    destruct (centroid_loop_raise_inv _ _ _ _ Hlen Hloop) as (face & Hin & Hd & ->).
    exists points, faces, face. repeat split; auto.
    exact (proj1 (List.Forall_forall _ _) Hlen face Hin).
  - intros [= <-]. destruct (parse_raise_inv _ _ Hparse) as [H|H]; auto.
Qed.

(** X10.  The pipeline from a file name to the centroid fails in four
    ways only.  When the file cannot be opened or parsed, it fails with
    the [ValueError] of reading, which carries the message of what was
    raised.  When the file is read, it fails with the error of converting
    a token of an [F] element that is not an integer, with [InvalidPoint]
    for a [P] element of the document, or with [DanglingReference] for an
    extracted face, of three IDs, that names an ID outside the mapping.
    It raises no [IndexError] and no [KeyError]. *)
Theorem pipeline_errors (xml_file : string) :
  (forall msg, open_xml xml_file = inr msg ->
     centroid_of_file py_int py_float open_xml xml_file = Raise (ParseError msg))
  /\ (forall e,
      centroid_of_file py_int py_float open_xml xml_file = Raise e ->
      (exists msg, open_xml xml_file = inr msg /\ e = ParseError msg)
      \/ (exists doc, open_xml xml_file = inl doc
          /\ ((exists face tok, In face (find_all "F" doc)
                               /\ In tok (split_ws (text face))
                               /\ py_int tok = None /\ e = LiteralError tok)
              \/ (exists p, In p (find_all "P" doc) /\ e = InvalidPoint p)
              \/ (exists points faces face,
                    parse_tin_geometry py_int py_float doc = Ok (points, faces)
                    /\ In face faces /\ length face = 3%nat
                    /\ dangling points face /\ e = DanglingReference face)))).
Proof.
  split.
  - intros msg H. unfold centroid_of_file, parse_tin_file, read_xml.
    now rewrite H.
  - intros e. destruct (open_xml xml_file) as [doc|msg] eqn:Hopen.
    + rewrite (centroid_of_file_read _ _ Hopen). intros H. right. exists doc.
      split; [reflexivity|]. now apply centroid_of_document_raise_inv.
    + unfold centroid_of_file, parse_tin_file, read_xml. rewrite Hopen.
      intros [= <-]. left. eauto.
Qed.

(** X11.  A document whose [F] elements all convert and none of which has
    exactly three tokens (a document without [F] elements, for one), and
    whose [P] elements are all accepted, has no centroid: the pipeline
    returns [None], without an error. *)
Theorem no_triangle_no_centroid (doc : document) (ls : list (list Z)) :
  Forall2 (face_tokens py_int) (find_all "F" doc) ls ->
  Forall (fun l => length l <> 3%nat) ls ->
  Forall (fun p => ~ invalid_point_code py_int py_float p) (find_all "P" doc) ->
  centroid_of_document py_int py_float doc = Ok None.
Proof.
  intros HF Hlen HP. unfold centroid_of_document.
  rewrite (parse_with_faces py_int py_float _ _ HF).
  destruct (points_loop_ok py_int py_float _ HP ∅) as [points ->]. simpl.
  assert (Hnil : List.filter (fun l => Nat.eqb (length l) 3) ls = []).
  { clear HF. induction Hlen as [|l ls Hl _ IH]; [reflexivity|]. simpl.
    destruct (Nat.eqb_spec (length l) 3); [contradiction | exact IH]. }
  rewrite Hnil. reflexivity.
Qed.

End ExtractorInvariants.

Section Order.
Variable py_int : string -> option Z.
Variable py_float : string -> option float.

Lemma unique_ids_perm ps ps' :
  Permutation ps ps' -> unique_ids py_int ps -> unique_ids py_int ps'.
Proof.
  intros Hperm [Hnd Hu]. split.
  - eapply Permutation_NoDup; eassumption.
  - intros p q pid Hp Hq. apply Hu; eapply Permutation_in; try eassumption;
      now apply Permutation_sym.
Qed.

(** With unique IDs, the entry of an ID is what its element stores. *)
Lemma points_loop_stored ps points' p pid v :
  unique_ids py_int ps ->
  points_loop py_int py_float ps ∅ = Ok points' ->
  In p ps -> stores py_int py_float p pid v ->
  points' !! pid = Some v.
Proof.
  intros [Hnd Hu] Hloop Hin Hst.
  apply in_split in Hin as (a & b & ->).
  rewrite points_loop_app in Hloop.
  destruct (points_loop py_int py_float a ∅) as [m|]; simpl in Hloop; [|discriminate].
  destruct Hst as [Hid Htok].
  rewrite (point_body_ok py_int py_float _ _ _ _ Hid Htok) in Hloop.
  eapply (points_loop_preserves py_int py_float); [| |exact Hloop].
  - apply List.Forall_forall. intros q Hq v' [Hqid _].
    assert (p = q) as <-.
    { apply (Hu p q pid); auto using in_or_app, in_eq, in_cons. }
    apply NoDup_remove_2 in Hnd. apply Hnd. apply in_or_app. now right.
  - destruct v as [x y z]. simpl. apply lookup_insert_eq.
Qed.

Lemma points_loop_perm ps ps' m m' :
  Permutation ps ps' -> unique_ids py_int ps ->
  points_loop py_int py_float ps ∅ = Ok m ->
  points_loop py_int py_float ps' ∅ = Ok m' ->
  m' = m.
Proof.
  intros Hperm Hu Hm Hm'.
  pose proof (unique_ids_perm _ _ Hperm Hu) as Hu'.
  apply map_eq. intros pid.
  destruct (m !! pid) as [v|] eqn:Hv.
  - destruct (points_loop_entry py_int py_float _ _ _ _ _ Hm Hv) as [H|H].
    + rewrite lookup_empty in H. discriminate.
    + apply List.Exists_exists in H as (p & Hin & Hst).
      apply (points_loop_stored ps' m' p pid v Hu' Hm'); [|exact Hst].
      eapply Permutation_in; eassumption.
  - destruct (m' !! pid) as [v|] eqn:Hv'; [|reflexivity].
    destruct (points_loop_entry py_int py_float _ _ _ _ _ Hm' Hv') as [H|H].
    + rewrite lookup_empty in H. discriminate.
    + apply List.Exists_exists in H as (p & Hin & Hst).
      assert (m !! pid = Some v) as Hc.
      { apply (points_loop_stored ps m p pid v Hu Hm); [|exact Hst].
        eapply Permutation_in; [apply Permutation_sym; exact Hperm | exact Hin]. }
      congruence.
Qed.

(** X12.  When no two [P] elements carry the same ID and all are
    accepted, the order of the [P] elements, among themselves and with
    respect to the [F] elements, does not change what the Extractor
    returns. *)
Theorem point_order_is_irrelevant (doc doc' : document) :
  find_all "F" doc' = find_all "F" doc ->
  Permutation (find_all "P" doc) (find_all "P" doc') ->
  unique_ids py_int (find_all "P" doc) ->
  Forall (fun p => ~ invalid_point_code py_int py_float p) (find_all "P" doc) ->
  parse_tin_geometry py_int py_float doc' = parse_tin_geometry py_int py_float doc.
Proof.
  intros HF Hperm Hu Hvalid. unfold parse_tin_geometry. rewrite HF.
  destruct (faces_loop py_int (find_all "F" doc) []) as [faces|]; simpl;
    [|reflexivity].
  assert (Hvalid' : Forall (fun p => ~ invalid_point_code py_int py_float p)
                      (find_all "P" doc')).
  { apply List.Forall_forall. intros p Hp.
    apply (proj1 (List.Forall_forall _ _) Hvalid).
    eapply Permutation_in; [apply Permutation_sym|]; eassumption. }
  destruct (points_loop_ok py_int py_float _ Hvalid ∅) as [m Hm].
  destruct (points_loop_ok py_int py_float _ Hvalid' ∅) as [m' Hm'].
  rewrite Hm, Hm'. simpl.
  now rewrite (points_loop_perm _ _ _ _ Hperm Hu Hm Hm').
Qed.

End Order.

(** * More about the Scaler *)

(** *** Splitting what was joined *)

Lemma split_on_from_no_space s : forall rest cur,
  no_space s = true ->
  split_on_from " "%char (s ++ rest) cur = split_on_from " "%char rest (cur ++ s).
Proof.
  induction s as [|c s IH]; intros rest cur Hs.
  - change (EmptyString ++ rest)%string with rest. now rewrite append_empty_r.
  - cbn [no_space] in Hs. apply andb_prop in Hs as [Hc Hs].
    rewrite append_cons. cbn [split_on_from].
    apply negb_true_iff in Hc. rewrite Hc, IH by assumption.
    now rewrite append_assoc.
Qed.

Lemma split_space_join l :
  l <> [] -> Forall (fun s => no_space s = true) l ->
  split_space (join_space l) = l.
Proof.
  unfold split_space, join_space. intros Hne Hall.
  induction Hall as [|s l Hs Hall IH]; [contradiction|].
  destruct l as [|t l].
  - change (String.concat " " [s]) with s.
    rewrite <- (append_empty_r s) at 1.
    rewrite split_on_from_no_space by assumption. reflexivity.
  - change (String.concat " " (s :: t :: l))
      with (s ++ String " " (String.concat " " (t :: l)))%string.
    rewrite split_on_from_no_space by assumption. cbn [split_on_from].
    change (Ascii.eqb " " " ") with true. cbv iota.
    change (EmptyString ++ s)%string with s.
    f_equal. apply IH. discriminate.
Qed.

Lemma all_digits_no_space s : all_digits s = true -> no_space s = true.
Proof.
  induction s as [|c s IH]; [reflexivity|]. cbn [all_digits no_space].
  intros H. apply andb_prop in H as [Hc Hs]. rewrite (IH Hs), andb_true_r.
  destruct (Ascii.eqb_spec c " "%char) as [->|]; [discriminate | reflexivity].
Qed.

Lemma str_int_no_space n : no_space (str_int n) = true.
Proof.
  unfold str_int. destruct (n <? 0).
  - cbn [no_space]. now rewrite all_digits_no_space by apply str_nat_all_digits.
  - apply all_digits_no_space, str_nat_all_digits.
Qed.

Lemma split_on_from_not_nil sep s : forall cur, split_on_from sep s cur <> [].
Proof.
  induction s as [|c s IH]; intros cur; cbn [split_on_from]; [discriminate|].
  destruct (Ascii.eqb c sep); [discriminate | apply IH].
Qed.

Section FaceNormalisation.
Variable py_int : string -> option Z.
Variable py_float : string -> option float.
Variable float_str : float -> string.
Variable scale_factor : float.

Lemma int_list_length tokens l :
  int_list py_int tokens = Ok l -> length l = length tokens.
Proof.
  revert l. induction tokens as [|t tokens IH]; intros l; simpl.
  - now intros [= <-].
  - destruct (py_int t); [|discriminate].
    destruct (int_list py_int tokens) as [k|]; simpl; [|discriminate].
    intros [= <-]. simpl. f_equal. now apply IH.
Qed.

Lemma int_list_of_rendered l :
  Forall (fun n => py_int (str_int n) = Some n) l ->
  int_list py_int (map str_int l) = Ok l.
Proof.
  induction 1 as [|n l Hn _ IH]; simpl; [reflexivity|].
  now rewrite Hn, IH.
Qed.

(** X13.  The Scaler replaces a face string by its integers joined with
    single spaces; when [int] reads those integers back from what [str]
    wrote, the new string converts to the same integers and normalising it
    again leaves it as it is. *)
Theorem face_normalisation_is_idempotent (face : string) (l : list Z) :
  int_list py_int (split_space face) = Ok l ->
  Forall (fun n => py_int (str_int n) = Some n) l ->
  let face' := join_space (map str_int l) in
  scale_face py_int face = Ok face'
  /\ int_list py_int (split_space face') = Ok l
  /\ scale_face py_int face' = Ok face'.
Proof.
  intros Hl Hround face'.
  assert (Hsplit : split_space face' = map str_int l).
  { apply split_space_join.
    - intros Hnil. apply map_eq_nil in Hnil. subst l.
      apply int_list_length in Hl. simpl in Hl.
      apply (split_on_from_not_nil " "%char face EmptyString).
      now apply length_zero_iff_nil.
    - apply Forall_map. apply Forall_forall. intros n _. apply str_int_no_space. }
  assert (Hl' : int_list py_int (split_space face') = Ok l).
  { rewrite Hsplit. now apply int_list_of_rendered. }
  unfold scale_face. rewrite Hl, Hl'. auto.
Qed.

End FaceNormalisation.

Section PointStrings.
Variable py_int : string -> option Z.
Variable py_float : string -> option float.
Variable float_str : float -> string.
Variable scale_factor : float.

Lemma float_list_raise pre tok post :
  Forall (fun t => is_Some (py_float t)) pre -> py_float tok = None ->
  float_list py_float (pre ++ tok :: post) = Raise (LiteralError tok).
Proof.
  induction 1 as [|t pre [n Ht] _ IH]; intros Htok; simpl.
  - now rewrite Htok.
  - rewrite Ht, IH by assumption. reflexivity.
Qed.

Lemma float_list_raise_inv tokens e :
  float_list py_float tokens = Raise e ->
  exists pre tok post, tokens = pre ++ tok :: post
    /\ Forall (fun t => is_Some (py_float t)) pre /\ py_float tok = None
    /\ e = LiteralError tok.
Proof.
  revert e. induction tokens as [|t tokens IH]; intros e; simpl; [discriminate|].
  destruct (py_float t) as [v|] eqn:Ht.
  - destruct (float_list py_float tokens) as [l|e']; simpl; [discriminate|].
    intros [= <-]. destruct (IH _ eq_refl) as (pre & tok & post & -> & Hpre & Htok & ->).
    exists (t :: pre), tok, post.
    split; [reflexivity|]. split; [|auto].
    constructor; [rewrite Ht; eauto | assumption].
  - intros [= <-]. exists [], t, tokens. repeat split; auto.
Qed.

(** X14.  How one string of a [P] element fails.  The Scaler raises the
    conversion error of a piece exactly when that piece is the first one
    between single spaces that is not a float; it raises [IndexError]
    exactly when all pieces are floats and there are fewer than three; and
    it raises nothing else. *)
Theorem scale_point_errors (point : string) :
  (forall tok,
     scale_point py_float float_str scale_factor point = Raise (LiteralError tok)
     <-> exists pre post, split_space point = pre ++ tok :: post
           /\ Forall (fun t => is_Some (py_float t)) pre /\ py_float tok = None)
  /\ (scale_point py_float float_str scale_factor point = Raise IndexError
      <-> exists l, float_list py_float (split_space point) = Ok l
                    /\ (length l < 3)%nat)
  /\ (forall e, scale_point py_float float_str scale_factor point = Raise e ->
      e = IndexError \/ exists tok, e = LiteralError tok).
Proof.
  unfold scale_point.
  destruct (float_list py_float (split_space point)) as [l|e] eqn:Hl; simpl.
  - split; [|split].
    + intros tok. split.
      * destruct l as [|x [|y [|z rest]]]; discriminate.
      * intros (pre & post & Hsplit & Hpre & Htok).
        rewrite Hsplit, (float_list_raise _ _ _ Hpre Htok) in Hl. discriminate.
    + split.
      * intros H. exists l. split; [reflexivity|].
        destruct l as [|x [|y [|z rest]]]; simpl; try lia. discriminate.
      * intros (l' & [= <-] & Hlen).
        destruct l as [|x [|y [|z rest]]]; simpl in *; try reflexivity; lia.
    + intros e. destruct l as [|x [|y [|z rest]]]; try discriminate;
        intros [= <-]; auto.
  - destruct (float_list_raise_inv _ _ Hl) as (pre & tok & post & Hsplit & Hpre & Htok & ->).
    split; [|split].
    + intros tok'. split.
      * intros [= <-]. eauto.
      * intros (pre' & post' & Hsplit' & Hpre' & Htok').
        rewrite Hsplit', (float_list_raise _ _ _ Hpre' Htok') in Hl.
        now injection Hl as ->.
    + split; [discriminate | intros (l & ? & _); discriminate].
    + intros e [= <-]. eauto.
Qed.

(** *** The shape of the document *)

Lemma scaled_element_shape e e' :
  scaled_element py_int py_float float_str scale_factor e e' ->
  name e' = name e /\ attrs e' = attrs e
  /\ length (contents e') = length (contents e)
  /\ (name e <> "F"%string -> name e <> "P"%string -> e' = e).
Proof.
  unfold scaled_element.
  destruct (String.eqb_spec (name e) "F") as [HF|HF].
  - intros (Hn & Ha & Hc). repeat split; auto.
    + symmetry. eapply Forall2_length. exact Hc.
    + contradiction.
  - destruct (String.eqb_spec (name e) "P") as [HP|HP].
    + intros (Hn & Ha & Hc). repeat split; auto.
      * symmetry. eapply Forall2_length. exact Hc.
      * contradiction.
    + intros ->. auto.
Qed.

Lemma scale_document_shape doc doc' :
  scale_document py_int py_float float_str scale_factor doc = Ok doc' ->
  Forall2 (fun e e' =>
             name e' = name e /\ attrs e' = attrs e
             /\ length (contents e') = length (contents e)
             /\ (name e <> "F"%string -> name e <> "P"%string -> e' = e))
    doc doc'.
Proof.
  unfold scale_document.
  destruct (rewrite_all "F" (scale_face py_int) doc) as [doc1|] eqn:H1; simpl;
    [|discriminate].
  intros H2. apply rewrite_all_spec in H1, H2.
  pose proof (two_passes py_int py_float float_str scale_factor _ _ _ H1 H2) as H.
  eapply Forall2_impl; [exact H|]. intros e e'. apply scaled_element_shape.
Qed.

Lemma same_names_find_all_length tag (doc doc' : document) :
  Forall2 (fun e e' => name e' = name e) doc doc' ->
  length (find_all tag doc') = length (find_all tag doc).
Proof.
  induction 1 as [|e e' doc doc' He _ IH]; [reflexivity|].
  unfold find_all in *. simpl. rewrite He.
  destruct (String.eqb (name e) tag); simpl; now rewrite IH.
Qed.

Lemma unchanged_find_all tag (doc doc' : document) :
  tag <> "F"%string -> tag <> "P"%string ->
  Forall2 (fun e e' => name e' = name e
                       /\ (name e <> "F"%string -> name e <> "P"%string -> e' = e))
    doc doc' ->
  find_all tag doc' = find_all tag doc.
Proof.
  intros HF HP. induction 1 as [|e e' doc doc' [Hn He] _ IH]; [reflexivity|].
  unfold find_all in *. simpl. rewrite Hn.
  destruct (String.eqb_spec (name e) tag) as [Heq|Hne]; [|exact IH].
  rewrite He, IH by congruence. reflexivity.
Qed.

(** X15.  What [main] writes has the shape of what it read: the same tag
    names and attributes in the same order, the same number of strings in
    every element, and the elements of every tag other than [F] and [P]
    as they were; and the counts it prints are those of the input. *)
Theorem main_keeps_the_document_shape
    (doc doc' : document) (counts : nat * nat * nat) :
  main py_int py_float float_str scale_factor doc = Ok (doc', counts) ->
  map name doc' = map name doc
  /\ map attrs doc' = map attrs doc
  /\ map (fun e => length (contents e)) doc' = map (fun e => length (contents e)) doc
  /\ (forall tag, tag <> "F"%string -> tag <> "P"%string ->
      find_all tag doc' = find_all tag doc)
  /\ counts = report doc.
Proof.
  unfold main.
  destruct (scale_document py_int py_float float_str scale_factor doc) as [d|] eqn:Hs;
    simpl; [|discriminate].
  intros [= <- <-]. apply scale_document_shape in Hs.
  assert (Hnames : Forall2 (fun e e' => name e' = name e) doc d).
  { eapply Forall2_impl; [exact Hs|]. now intros e e' (? & _). }
  repeat split.
  - clear Hnames. induction Hs as [|e e' ? ? (Hn & _) _ IH]; simpl; congruence.
  - clear Hnames. induction Hs as [|e e' ? ? (_ & Ha & _) _ IH]; simpl; congruence.
  - clear Hnames. induction Hs as [|e e' ? ? (_ & _ & Hc & _) _ IH]; simpl; congruence.
  - intros tag HF HP. apply unchanged_find_all; try assumption.
    eapply Forall2_impl; [exact Hs|]. now intros e e' (? & _ & _ & ?).
  - unfold report. now rewrite !(same_names_find_all_length _ _ _ Hnames).
Qed.

(** X16.  With the factor zero, first and second coordinates that are
    numbers are both written as a zero with twelve decimals, with a minus
    sign or without; the third coordinate is written as for any factor. *)
Theorem zero_factor_collapses_to_signed_zero
    (point tx ty tz : string) (x y z : float) :
  split_space point = [tx; ty; tz] ->
  py_float tx = Some x -> py_float ty = Some y -> py_float tz = Some z ->
  finite x = true -> finite y = true ->
  exists X Y,
    scale_point py_float float_str 0 point
    = Ok (X ++ " " ++ Y ++ " " ++ format_f 4 z)%string
    /\ (X = "0.000000000000" \/ X = "-0.000000000000")%string
    /\ (Y = "0.000000000000" \/ Y = "-0.000000000000")%string.
Proof.
  intros Hsplit Hx Hy Hz Fx Fy.
  exists (format_f 12 (x * 0)), (format_f 12 (y * 0)). split.
  - unfold scale_point. rewrite Hsplit. cbn [float_list].
    rewrite Hx, Hy, Hz. reflexivity.
  - assert (Hzero : forall v, finite v = true ->
              (format_f 12 (v * 0) = "0.000000000000"
               \/ format_f 12 (v * 0) = "-0.000000000000")%string).
    { intros v Fv. pose proof (is_zero_mul_r v 0 Fv is_zero_0) as Hv.
      unfold is_zero_float in Hv. unfold format_f.
      destruct (Prim2SF (v * 0)) as [[]| | |]; try discriminate; auto. }
    auto.
Qed.

End PointStrings.

(** *** The tokens of a joined string *)





(** *** Reading back a rendered integer *)








Section ScalerThenExtractor.
Variable py_int : string -> option Z.
Variable py_float : string -> option float.
Variable float_str : float -> string.
Variable scale_factor : float.




End ScalerThenExtractor.

(** *** The first string that fails *)

Lemma rewrite_strings_raise_iff f l e :
  rewrite_strings f l = Raise e
  <-> exists before s after, l = before ++ s :: after
        /\ Forall (fun s => exists s', f s = Ok s') before /\ f s = Raise e.
Proof.
  induction l as [|s l IH]; simpl.
  - split; [discriminate|]. intros (b & s & a & H & _). now destruct b.
  - destruct (f s) as [s'|e'] eqn:Hs; simpl.
    + destruct (rewrite_strings f l) as [l'|e'] eqn:Hl; simpl.
      * split; [discriminate|].
        intros (b & s0 & a & Heq & Hb & Hs0).
        destruct b as [|s1 b]; simpl in Heq; injection Heq as <- ->; [congruence|].
        inversion Hb; subst.
        assert (Ok l' = Raise e) as H by (apply IH; exists b, s0, a; auto).
        discriminate H.
      * split.
        -- intros [= <-]. destruct (proj1 IH eq_refl) as (b & s0 & a & -> & Hb & Hs0).
           exists (s :: b), s0, a. split; [reflexivity|]. split; [|assumption].
           constructor; eauto.
        -- intros (b & s0 & a & Heq & Hb & Hs0).
           destruct b as [|s1 b]; simpl in Heq; injection Heq as <- ->; [congruence|].
           inversion Hb; subst. f_equal.
           assert (Raise e' = Raise e) as H by (apply IH; exists b, s0, a; auto).
           now injection H.
    + split.
      * intros [= <-]. exists [], s, l. auto.
      * intros (b & s0 & a & Heq & Hb & Hs0).
        destruct b as [|s1 b]; simpl in Heq; injection Heq as <- ->.
        -- congruence.
        -- inversion Hb as [|? ? [? ?] _]; subst. congruence.
Qed.

Lemma rewrite_all_raise_iff tag f doc e :
  rewrite_all tag f doc = Raise e <-> first_failure f (find_all tag doc) e.
Proof.
  unfold first_failure. induction doc as [|el doc IH]; simpl.
  - split; [discriminate|]. intros (p & x & q & b & s & a & H & _). now destruct p.
  - unfold find_all in *. simpl.
    destruct (String.eqb (name el) tag).
    + destruct (rewrite_strings f (contents el)) as [c|e'] eqn:Hc; simpl.
      * assert (Hok : Forall (fun s => exists s', f s = Ok s') (contents el))
          by (apply rewrite_strings_ok; eauto).
        destruct (rewrite_all tag f doc) as [doc'|e'] eqn:Hd; simpl.
        -- split; [discriminate|].
           intros (p & x & q & b & s & a & Heq & Hp & Hx & Hb & Hs).
           destruct p as [|y p]; simpl in Heq; injection Heq as <- Heq.
           ++ assert (rewrite_strings f (contents el) = Raise e) as H
                by (apply rewrite_strings_raise_iff; exists b, s, a; auto).
              congruence.
           ++ inversion Hp; subst.
              assert (Ok doc' = Raise e) as H
                by (apply IH; exists p, x, q, b, s, a; auto).
              discriminate H.
        -- split.
           ++ intros [= <-].
              destruct (proj1 IH eq_refl) as (p & x & q & b & s & a & -> & Hp & Hx & Hb & Hs).
              exists (el :: p), x, q, b, s, a.
              split; [reflexivity|]. split; [now constructor | auto].
           ++ intros (p & x & q & b & s & a & Heq & Hp & Hx & Hb & Hs).
              destruct p as [|y p]; simpl in Heq; injection Heq as <- Heq.
              ** assert (rewrite_strings f (contents el) = Raise e) as H
                   by (apply rewrite_strings_raise_iff; exists b, s, a; auto).
                 congruence.
              ** inversion Hp; subst. f_equal.
                 assert (Raise e' = Raise e) as H
                   by (apply IH; exists p, x, q, b, s, a; auto).
                 now injection H.
      * split.
        -- intros [= <-].
           apply rewrite_strings_raise_iff in Hc as (b & s & a & Hx & Hb & Hs).
           exists [], el, (List.filter (fun e0 => String.eqb (name e0) tag) doc), b, s, a.
           auto.
        -- intros (p & x & q & b & s & a & Heq & Hp & Hx & Hb & Hs).
           destruct p as [|y p]; simpl in Heq; injection Heq as <- Heq.
           ++ assert (rewrite_strings f (contents el) = Raise e) as H
                by (apply rewrite_strings_raise_iff; exists b, s, a; auto).
              rewrite Hc in H. now injection H as ->.
           ++ inversion Hp as [|? ? Hy _]; subst.
              apply rewrite_strings_ok in Hy as [? ?]. congruence.
    + simpl. destruct (rewrite_all tag f doc) as [doc'|e'] eqn:Hd; simpl.
      * split; [discriminate|]. intros H. apply IH in H. discriminate H.
      * split.
        -- intros [= <-]. now apply IH.
        -- intros H. now apply IH.
Qed.

Section ScalerOrder.
Variable py_int : string -> option Z.
Variable py_float : string -> option float.
Variable float_str : float -> string.
Variable scale_factor : float.

(** X19.  Which error the Scaler stops with: that of the first string of
    an [F] element, in document order, that does not convert; and only
    when every [F] string converts, that of the first string of a [P]
    element that does not, wherever the [P] elements stand among the [F]
    elements. *)
Theorem scaler_reports_first_malformed_string (doc : document) (e : error) :
  scale_document py_int py_float float_str scale_factor doc = Raise e
  <-> first_failure (scale_face py_int) (find_all "F" doc) e
      \/ (Forall (face_pieces_ok py_int) (find_all "F" doc)
          /\ first_failure (scale_point py_float float_str scale_factor)
               (find_all "P" doc) e).
Proof.
  unfold scale_document.
  destruct (rewrite_all "F" (scale_face py_int) doc) as [doc1|e1] eqn:H1; simpl.
  - assert (HF : Forall (face_pieces_ok py_int) (find_all "F" doc))
      by (apply face_pass_ok; eauto).
    assert (HP : find_all "P" doc1 = find_all "P" doc).
    { eapply rewrite_all_other; [|exact H1]. discriminate. }
    rewrite rewrite_all_raise_iff, HP. split; [auto|].
    intros [H|[_ H]]; [|exact H].
    apply rewrite_all_raise_iff in H. congruence.
  - split.
    + intros [= <-]. left. now apply rewrite_all_raise_iff.
    + intros [H|[HF _]].
      * apply rewrite_all_raise_iff in H. congruence.
      * apply face_pass_ok in HF as [? ?]. congruence.
Qed.

End ScalerOrder.

Section Mirror.
Variable py_float : string -> option float.
Variable float_str : float -> string.

(** X17.  The opposite factor gives the same point with the first two
    tokens mirrored: each differs from its counterpart by the minus sign
    only (or both are ["nan"]), and the third token is the same. *)
Theorem opposite_factor_mirrors_the_point
    (s : float) (point tx ty tz : string) (x y z : float) :
  split_space point = [tx; ty; tz] ->
  py_float tx = Some x -> py_float ty = Some y -> py_float tz = Some z ->
  exists X Y X' Y' Z,
    scale_point py_float float_str s point = Ok (X ++ " " ++ Y ++ " " ++ Z)%string
    /\ scale_point py_float float_str (- s) point
       = Ok (X' ++ " " ++ Y' ++ " " ++ Z)%string
    /\ mirrored X X' /\ mirrored Y Y'.
Proof.
  intros Hsplit Hx Hy Hz.
  exists (format_f 12 (x * s)), (format_f 12 (y * s)),
         (format_f 12 (x * - s)), (format_f 12 (y * - s)), (format_f 4 z).
  unfold scale_point. rewrite Hsplit. cbn [float_list]. rewrite Hx, Hy, Hz.
  repeat split; apply format_f_mirrored, mul_opp_r.
Qed.
End Mirror.

Section Specials.
Variable py_float : string -> option float.
Variable float_str : float -> string.

Lemma format_f_token digits v : token_of digits v (format_f digits v).
Proof.
  unfold token_of. destruct (finite v) eqn:Hf.
  - now apply format_f_fixed_point.
  - unfold finite in Hf. unfold format_f.
    destruct (Prim2SF v) as [s|[]| |s m e] eqn:Hv; try discriminate.
    + right. left. split; [now apply Prim2SF_inj; rewrite Hv | reflexivity].
    + left. split; [now apply Prim2SF_inj; rewrite Hv | reflexivity].
    + right. right. split; [now apply Prim2SF_inj; rewrite Hv | reflexivity].
Qed.

(** X20.  A string of a [P] element that cuts at single spaces into three
    floats is rewritten whatever the values are.  A token whose value is a
    number has its fixed number of decimals; a token whose value is an
    infinity or a NaN, be it read as such or the result of an overflow, is
    ["inf"], ["-inf"] or ["nan"]. *)
Theorem special_values_are_rendered_by_name
    (s : float) (point tx ty tz : string) (x y z : float) :
  split_space point = [tx; ty; tz] ->
  py_float tx = Some x -> py_float ty = Some y -> py_float tz = Some z ->
  exists X Y Z,
    scale_point py_float float_str s point = Ok (X ++ " " ++ Y ++ " " ++ Z)%string
    /\ token_of 12 (x * s) X /\ token_of 12 (y * s) Y /\ token_of 4 z Z.
Proof.
  intros Hsplit Hx Hy Hz.
  exists (format_f 12 (x * s)), (format_f 12 (y * s)), (format_f 4 z).
  split; [|auto using format_f_token].
  unfold scale_point. rewrite Hsplit. cbn [float_list].
  rewrite Hx, Hy, Hz. reflexivity.
Qed.

Lemma format_f_times_zero v :
  finite v = true ->
  format_f 12 (v * 0) = sign_prefix (sign_bit v) "0.000000000000".
Proof.
  unfold finite, sign_bit, format_f. rewrite mul_spec.
  change (Prim2SF 0) with (S754_zero false).
  destruct (Prim2SF v) as [[]|[]| |[] m e]; try discriminate; reflexivity.
Qed.

(** X21.  With the factor zero the sign of a coordinate survives: first
    and second coordinates that are numbers are written as
    ["-0.000000000000"] when their sign bit is set (negative numbers and
    the negative zero) and as ["0.000000000000"] otherwise. *)
Theorem zero_factor_keeps_the_sign
    (point tx ty tz : string) (x y z : float) :
  split_space point = [tx; ty; tz] ->
  py_float tx = Some x -> py_float ty = Some y -> py_float tz = Some z ->
  finite x = true -> finite y = true ->
  scale_point py_float float_str 0 point
  = Ok (sign_prefix (sign_bit x) "0.000000000000" ++ " "
        ++ sign_prefix (sign_bit y) "0.000000000000" ++ " "
        ++ format_f 4 z)%string.
Proof.
  intros Hsplit Hx Hy Hz Fx Fy.
  unfold scale_point. rewrite Hsplit. cbn [float_list].
  rewrite Hx, Hy, Hz. cbn [bind].
  now rewrite (format_f_times_zero x Fx), (format_f_times_zero y Fy).
Qed.

End Specials.

(** * The further properties on the example data *)

Lemma unit_square_centroid_is_returned :
  (area_sum square_triangles <? 0)%float = false
  /\ ((exists c, compute_weighted_centroid unit_square square_faces = Ok (Some c))
      <-> (0 <? area_sum square_triangles)%float = true)
  /\ (compute_weighted_centroid unit_square square_faces = Ok None
      <-> is_zero_float (area_sum square_triangles) = true
          \/ area_sum square_triangles = nan).
Proof.
  apply (centroid_returned_iff_positive_area unit_square square_faces square_triangles).
  repeat constructor.
Defined.

Lemma segment_between_triangles :
  same_centroid
    (compute_weighted_centroid unit_square ([[1; 2; 3]] ++ [1; 1; 2] :: [[1; 3; 4]]))
    (compute_weighted_centroid unit_square ([[1; 2; 3]] ++ [[1; 3; 4]])).
Proof.
  apply (zero_area_face_contributes_nothing unit_square [[1; 2; 3]] [[1; 3; 4]]
           [1; 1; 2] (Vec3 0 0 0, Vec3 0 0 0, Vec3 1 0 0)); reflexivity.
Defined.

Lemma face_of_two_ids :
  compute_weighted_centroid unit_square ([[1; 2; 3]] ++ [1; 2] :: [[1; 3; 4]])
  = Raise IndexError.
Proof.
  apply (short_face_raises_IndexError unit_square [[1; 2; 3]] [[1; 3; 4]] [1; 2]
           [(Vec3 0 0 0, Vec3 1 0 0, Vec3 1 1 0)]).
  - repeat constructor.
  - simpl. lia.
  - repeat constructor; eexists; reflexivity.
Defined.

Lemma face_of_four_ids :
  compute_weighted_centroid unit_square [[1; 2; 3; 99]]
  = compute_weighted_centroid unit_square (map (take 3) [[1; 2; 3; 99]]).
Proof.
  apply (ids_after_the_third_are_ignored unit_square [[1; 2; 3; 99]]
           [(Vec3 0 0 0, Vec3 1 0 0, Vec3 1 1 0)]).
  repeat constructor.
Defined.

Lemma one_more_point :
  compute_weighted_centroid unit_square square_faces
  = compute_weighted_centroid (<[9 := Vec3 7 7 7]> unit_square) square_faces.
Proof.
  apply (centroid_ignores_unused_points unit_square (<[9 := Vec3 7 7 7]> unit_square)
           square_faces).
  repeat constructor; intros k Hk; simpl in Hk;
    repeat (destruct Hk as [<-|Hk]; [reflexivity|]); destruct Hk.
Defined.

Lemma small_tin_parsed :
  parse_tin_geometry int_literal float_literal small_tin
  = Ok (unit_square, square_faces).
Proof. vm_compute. reflexivity. Defined.

Lemma small_tin_faces_are_triples :
  Forall (fun face => length face = 3%nat) square_faces.
Proof.
  exact (extracted_faces_are_triples int_literal float_literal small_tin
           unit_square square_faces small_tin_parsed).
Defined.

Lemma small_tin_third_point :
  (forall v, unit_square !! 3 = Some v ->
     Exists (fun p => stores int_literal float_literal p 3 v) (find_all "P" small_tin))
  /\ (unit_square !! 3 = None ->
      Forall (fun p => forall v, ~ stores int_literal float_literal p 3 v)
        (find_all "P" small_tin)).
Proof.
  exact (mapping_entries_come_from_points int_literal float_literal small_tin
           unit_square square_faces 3 small_tin_parsed).
Defined.

Lemma dangling_tin_fails :
  centroid_of_file int_literal float_literal tin_files "missing.xml"
  = Raise (ParseError "[Errno 2] No such file or directory: 'missing.xml'")
  /\ ((exists msg, tin_files "dangling.xml" = inr msg
                   /\ DanglingReference [1; 2; 9] = ParseError msg)
      \/ (exists doc, tin_files "dangling.xml" = inl doc
          /\ ((exists face tok, In face (find_all "F" doc)
                               /\ In tok (split_ws (text face))
                               /\ int_literal tok = None
                               /\ DanglingReference [1; 2; 9] = LiteralError tok)
              \/ (exists p, In p (find_all "P" doc)
                            /\ DanglingReference [1; 2; 9] = InvalidPoint p)
              \/ (exists points faces face,
                    parse_tin_geometry int_literal float_literal doc
                      = Ok (points, faces)
                    /\ In face faces /\ length face = 3%nat
                    /\ dangling points face
                    /\ DanglingReference [1; 2; 9] = DanglingReference face)))).
Proof.
  split.
  - apply (proj1 (pipeline_errors int_literal float_literal tin_files "missing.xml")).
    reflexivity.
  - apply (proj2 (pipeline_errors int_literal float_literal tin_files "dangling.xml")).
    vm_compute. reflexivity.
Defined.

Lemma no_triangles_no_centroid :
  centroid_of_document int_literal float_literal no_triangles = Ok None.
Proof.
  apply (no_triangle_no_centroid int_literal float_literal no_triangles
           [[1; 2]; [1; 2; 3; 4]]).
  - simpl. repeat constructor.
  - repeat constructor; simpl; lia.
  - simpl. repeat constructor.
    eapply valid_not_invalid; [eexists; split; reflexivity | reflexivity].
Defined.

Lemma two_points_either_order :
  parse_tin_geometry int_literal float_literal face_between_points
  = parse_tin_geometry int_literal float_literal points_then_face.
Proof.
  apply (point_order_is_irrelevant int_literal float_literal
           points_then_face face_between_points).
  - reflexivity.
  - simpl. apply perm_swap.
  - simpl. split.
    + repeat constructor; simpl; intuition discriminate.
    + intros p q pid Hp Hq (v & Hv & Hpid) (w & Hw & Hqid). simpl in Hp, Hq.
      destruct Hp as [<-|[<-|[]]], Hq as [<-|[<-|[]]]; try reflexivity;
        simpl in Hv, Hw; injection Hv as <-; injection Hw as <-;
        vm_compute in Hpid, Hqid; congruence.
  - simpl. repeat constructor;
      (eapply valid_not_invalid; [eexists; split; reflexivity | reflexivity]).
Defined.

Lemma signed_literals_are_normalised :
  scale_face int_literal "1 +2 03" = Ok "1 2 3"%string
  /\ int_list int_literal (split_space "1 2 3") = Ok [1; 2; 3]
  /\ scale_face int_literal "1 2 3" = Ok "1 2 3"%string.
Proof.
  apply (face_normalisation_is_idempotent int_literal "1 +2 03" [1; 2; 3]).
  - reflexivity.
  - repeat constructor.
Defined.

Lemma small_tin_main :
  main int_literal float_literal no_repr 2.5 small_tin
  = Ok (small_tin_scaled, (0, 0, 5)%nat).
Proof. vm_compute. reflexivity. Defined.

Lemma small_tin_keeps_its_shape :
  map name small_tin_scaled = map name small_tin
  /\ map attrs small_tin_scaled = map attrs small_tin
  /\ map (fun e => length (contents e)) small_tin_scaled
     = map (fun e => length (contents e)) small_tin
  /\ (forall tag, tag <> "F"%string -> tag <> "P"%string ->
      find_all tag small_tin_scaled = find_all tag small_tin)
  /\ (0, 0, 5)%nat = report small_tin.
Proof.
  exact (main_keeps_the_document_shape int_literal float_literal no_repr 2.5
           small_tin small_tin_scaled (0, 0, 5)%nat small_tin_main).
Defined.

Lemma negative_coordinate_times_zero :
  exists X Y,
    scale_point float_literal no_repr 0 "-1.5 2 3"
    = Ok (X ++ " " ++ Y ++ " " ++ format_f 4 3)%string
    /\ (X = "0.000000000000" \/ X = "-0.000000000000")%string
    /\ (Y = "0.000000000000" \/ Y = "-0.000000000000")%string.
Proof.
  apply (zero_factor_collapses_to_signed_zero float_literal no_repr
           "-1.5 2 3" "-1.5" "2" "3" (-1.5) 2 3); reflexivity.
Defined.

Lemma point_scaled_both_ways :
  exists X Y X' Y' Z,
    scale_point float_literal no_repr 2.5 "1.5 -0.25 3"
    = Ok (X ++ " " ++ Y ++ " " ++ Z)%string
    /\ scale_point float_literal no_repr (- 2.5) "1.5 -0.25 3"
       = Ok (X' ++ " " ++ Y' ++ " " ++ Z)%string
    /\ mirrored X X' /\ mirrored Y Y'.
Proof.
  apply (opposite_factor_mirrors_the_point float_literal no_repr 2.5
           "1.5 -0.25 3" "1.5" "-0.25" "3" 1.5 (-0.25) 3); reflexivity.
Defined.



Lemma overflow_in_both_directions :
  scale_point float_literal no_repr max_float "2 -1.5 0.25"
  = Ok "inf -inf 0.2500"%string
  /\ exists X Y Z,
       scale_point float_literal no_repr max_float "2 -1.5 0.25"
       = Ok (X ++ " " ++ Y ++ " " ++ Z)%string
       /\ token_of 12 (2 * max_float) X /\ token_of 12 (-1.5 * max_float) Y
       /\ token_of 4 0.25 Z.
Proof.
  split; [reflexivity|].
  apply (special_values_are_rendered_by_name float_literal no_repr max_float
           "2 -1.5 0.25" "2" "-1.5" "0.25" 2 (-1.5) 0.25); reflexivity.
Defined.

Lemma negative_coordinate_keeps_its_sign :
  scale_point float_literal no_repr 0 "-1.5 2 3"
  = Ok "-0.000000000000 0.000000000000 3.0000"%string.
Proof.
  apply (zero_factor_keeps_the_sign float_literal no_repr
           "-1.5 2 3" "-1.5" "2" "3" (-1.5) 2 3); reflexivity.
Defined.
